(** * arxiv-digest: a shallow embedding of [arxiv_daily_digest_simple.py]

    The script is a linear pipeline: search the feed keyword by keyword,
    filter the entries, deduplicate by title, format a digest, mail it.

    Text is held UTF-8 encoded in [string]: comparison, splitting on an
    ASCII character, replacement of an ASCII character, substring search and
    percent-encoding are then byte-wise.  The interpreter's [str.lower] and
    [str.strip] depend on Unicode tables that are not part of the script;
    they are parameters of the development ([Section Program]), and an
    ASCII instance is given for running the model.

    The outside world (environment variables, clocks, the feed endpoint,
    the mail relay) answers as a function of the events so far; effectful
    functions run in a monad that threads that event log and may raise. *)

From Stdlib Require Import List String Ascii Bool Arith NArith Lia DecimalString.
Import ListNotations.
Local Open Scope string_scope.
Local Open Scope nat_scope.
Local Open Scope list_scope.

Infix "+++" := String.append (right associativity, at level 60).

(** ** Strings *)

Definition nl : string := String (ascii_of_nat 10) "".

(** [str(n)] for a non-negative integer. *)
Definition str_of_nat (n : nat) : string :=
  NilZero.string_of_uint (Nat.to_uint n).

(** [s.replace(old, new)] for one-character [old] and [new]. *)
Fixpoint str_replace (old new : ascii) (s : string) : string :=
  match s with
  | "" => ""
  | String c r =>
      String (if Ascii.eqb c old then new else c) (str_replace old new r)
  end.

(** [s.split(sep)[0]] for a one-character [sep]. *)
Fixpoint split_head (sep : ascii) (s : string) : string :=
  match s with
  | "" => ""
  | String c r => if Ascii.eqb c sep then "" else String c (split_head sep r)
  end.

(** [c in s] for one character. *)
Fixpoint has_char (c : ascii) (s : string) : bool :=
  match s with
  | "" => false
  | String x r => Ascii.eqb x c || has_char c r
  end.

(** [needle in hay]. *)
Fixpoint str_in (needle hay : string) : bool :=
  match hay with
  | "" => String.prefix needle ""
  | String _ r => String.prefix needle hay || str_in needle r
  end.

(** [a >= b] on text. *)
Definition str_ge (a b : string) : bool := String.leb b a.

Definition in_range (lo hi n : nat) : bool := (lo <=? n) && (n <=? hi).

Definition hex_digit (n : nat) : ascii :=
  if n <? 10 then ascii_of_nat (48 + n) else ascii_of_nat (55 + n).

(** [urllib.parse.quote(s)]: letters, digits, [_ . - ~] and [/] stay, every
    other byte becomes [%XX]. *)
Definition quote_safe (c : ascii) : bool :=
  let n := nat_of_ascii c in
  in_range 65 90 n || in_range 97 122 n || in_range 48 57 n
  || (n =? 95) || (n =? 46) || (n =? 45) || (n =? 126) || (n =? 47).

Fixpoint quote (s : string) : string :=
  match s with
  | "" => ""
  | String c r =>
      if quote_safe c then String c (quote r)
      else
        let n := nat_of_ascii c in
        String "%" (String (hex_digit (n / 16))
                      (String (hex_digit (n mod 16)) (quote r)))
  end.

(** [n] in decimal on exactly [width] digits. *)
Fixpoint zero_pad (width n : nat) : string :=
  match width with
  | 0 => ""
  | S w => zero_pad w (n / 10) +++ String (ascii_of_nat (48 + n mod 10)) ""
  end.

(** [str.lower] and [str.strip] on ASCII text, for running the model. *)
Definition ascii_lower_char (c : ascii) : ascii :=
  let n := nat_of_ascii c in
  if in_range 65 90 n then ascii_of_nat (n + 32) else c.

Fixpoint ascii_lower (s : string) : string :=
  match s with
  | "" => ""
  | String c r => String (ascii_lower_char c) (ascii_lower r)
  end.

Definition ascii_space (c : ascii) : bool :=
  let n := nat_of_ascii c in in_range 9 13 n || in_range 28 32 n.

Fixpoint ascii_lstrip (s : string) : string :=
  match s with
  | "" => ""
  | String c r => if ascii_space c then ascii_lstrip r else s
  end.

Fixpoint ascii_rstrip (s : string) : string :=
  match s with
  | "" => ""
  | String c r =>
      match ascii_rstrip r with
      | "" => if ascii_space c then "" else String c ""
      | r' => String c r'
      end
  end.

Definition ascii_strip (s : string) : string := ascii_rstrip (ascii_lstrip s).

(** ** Dates *)

Record Date := mkDate { year : nat; month : nat; day : nat }.

(** [strftime("%Y-%m-%d")]; the year is printed on four digits from year
    1000 on. *)
Definition strftime_Ymd (d : Date) : string :=
  zero_pad 4 (year d) +++ "-" +++ zero_pad 2 (month d) +++ "-"
  +++ zero_pad 2 (day d).

Definition is_leap (y : nat) : bool :=
  (y mod 4 =? 0) && (negb (y mod 100 =? 0) || (y mod 400 =? 0)).

Definition days_in_month (y m : nat) : nat :=
  match m with
  | 2 => if is_leap y then 29 else 28
  | 4 | 6 | 9 | 11 => 30
  | _ => 31
  end.

Definition prev_day (d : Date) : Date :=
  if 1 <? day d then mkDate (year d) (month d) (day d - 1)
  else if 1 <? month d then
    mkDate (year d) (month d - 1) (days_in_month (year d) (month d - 1))
  else mkDate (year d - 1) 12 31.

(** The date part of [t - timedelta(days=n)]. *)
Fixpoint minus_days (d : Date) (n : nat) : Date :=
  match n with
  | 0 => d
  | S n' => minus_days (prev_day d) n'
  end.

(** Calendar order. *)
Definition date_lt (a b : Date) : Prop :=
  year a < year b
  \/ (year a = year b /\ month a < month b)
  \/ (year a = year b /\ month a = month b /\ day a < day b).

(** Dates that [strftime_Ymd] prints on ten characters. *)
Definition date_ok (d : Date) : Prop :=
  1000 <= year d < 10 ^ 4 /\ 1 <= month d <= 12 /\ 1 <= day d <= 31.

(** ** Python dictionaries, in insertion order *)

Module PyDict.

Definition dict (V : Type) := list (string * V).

Definition keys {V} (d : dict V) : list string := map fst d.
Definition values {V} (d : dict V) : list V := map snd d.

(** A dictionary holds each key once. *)
Definition wf {V} (d : dict V) : Prop := NoDup (keys d).

(** [d[k] = v]: an existing key keeps its position, a new key goes last. *)
Fixpoint set {V} (d : dict V) (k : string) (v : V) : dict V :=
  match d with
  | [] => [(k, v)]
  | (k', v') :: d' =>
      if String.eqb k' k then (k', v) :: d' else (k', v') :: set d' k v
  end.

(** [d[k].append(x)] on a dictionary of lists.  On an absent key Python
    raises [KeyError]; the one caller assigns [d[k]] first. *)
Fixpoint append {A} (d : dict (list A)) (k : string) (x : A) : dict (list A) :=
  match d with
  | [] => []
  | (k', l) :: d' =>
      if String.eqb k' k then (k', l ++ [x]) :: d'
      else (k', l) :: append d' k x
  end.

End PyDict.

(** ** Python sets of strings *)

Definition pyset := list string.
Definition set_empty : pyset := [].
Definition set_in (x : string) (s : pyset) : bool := existsb (String.eqb x) s.
Definition set_add (x : string) (s : pyset) : pyset := x :: s.

(** ** The data model *)

(** A category tag of a feed entry: a mapping with or without a ['term']
    (whose value is text or something else), a bare string, or any other
    object. *)
Inductive Tag :=
| TagDict (term : option (option string))
| TagStr (s : string)
| TagOther.

(** One feed entry.  A field is [None] when the attribute is absent or is
    not of the type the script uses it at: reading it raises. *)
Record Entry := mkEntry {
  e_title : option string;
  e_summary : option string;
  e_authors : option (list (option string));
  e_link : option string;
  e_published : option string;
  e_tags : option (list Tag)
}.

(** The dictionary appended to [matched] in [search_group]. *)
Record Paper := mkPaper {
  title : string;
  authors : string;
  summary : string;
  link : string;
  keyword : string;
  group : string
}.

Definition GroupedResults := PyDict.dict (list Paper).

(** All matches, in group order then discovery order. *)
Definition flatten (g : GroupedResults) : list Paper :=
  List.concat (PyDict.values g).

(** The module-level constants. *)
Record Config := mkConfig {
  RECEIVER_EMAILS : list string;
  STRICT_CATEGORY_MODE : bool;
  DAYS_BACK : nat;
  KEYWORD_GROUPS : PyDict.dict (list string);
  CATEGORIES : list string;
  MAX_RESULTS : nat;
  BASE_URL : string
}.

Definition default_config : Config := {|
  RECEIVER_EMAILS := ["foggymature@gmail.com"; "mobius3516@gmail.com"];
  STRICT_CATEGORY_MODE := true;
  DAYS_BACK := 5;
  KEYWORD_GROUPS := [
    ("Integrated Photonic Materials",
     ["SiN"; "silicon nitride"; "AlN"; "aluminum nitride";
      "TFLN"; "thin-film lithium niobate";
      "BTO"; "barium titanate";
      "thin-film lithium tantalate"; "lithium tantalate";
      "heterogeneous integration"]);
    ("Nonlinear & EO Devices",
     ["nonlinear frequency conversion"; "electro-optic modulator";
      "on-chip comb";
      "acousto-optic"; "acousto-optic modulator";
      "optical nonreciprocity"; "nonreciprocal optics"]);
    ("Multimodal Imaging & ML",
     ["microsphere imaging"; "endomicroscopy";
      "photonic neural network"; "on-chip machine learning";
      "optical computing"]);
    ("Quantum Optics & Photonics",
     ["single photon"; "quantum source";
      "entangled photons"; "quantum interference"; "quantum memory"]);
    ("Microwave-to-Optical & Synthetic Dimensions",
     ["microwave-to-optical transducer"; "microwave to optical conversion";
      "optomechanical interface"; "electromechanical interface";
      "optical synthetic dimension"; "synthetic frequency dimension";
      "synthetic photonics"]);
    ("Core Topics (LNOI, Quantum etc)",
     ["LNOI"; "lithium niobate"; "LiNbO3"; "SPDC"; "electro-optic";
      "super-resolution imaging"; "optical fiber endoscope"])
  ];
  CATEGORIES := ["physics.optics"; "quant-ph"; "eess.SP";
                 "cs.CV"; "cs.LG"; "physics.app-ph"];
  MAX_RESULTS := 50;
  BASE_URL := "http://export.arxiv.org/api/query?"
|}.

(** ** Effects *)

Record exn := Exn { exn_class : string; exn_msg : string }.

Definition AttributeError (attr : string) : exn :=
  Exn "AttributeError" ("object has no attribute '" +++ attr +++ "'").

(** The message handed to the relay. *)
Record Message := mkMessage {
  msg_body : string;
  msg_subject : string;
  msg_from : option string;
  msg_to : string
}.

(** The calls made on [smtplib.SMTP]. *)
Inductive SmtpOp :=
| SmtpConnect (host : string) (port : nat)
| SmtpEhlo
| SmtpStarttls
| SmtpLogin (user password : option string)
| SmtpSendmail (from_addr : option string) (to_addrs : list string)
               (msg : Message)
| SmtpQuit.

(** An argument of [print]. *)
Inductive Printed :=
| PStr (s : string)
| PStrList (l : list string).

Inductive Event :=
| EvClockUtc
| EvClockLocal
| EvFetch (url : string)
| EvSmtp (op : SmtpOp)
| EvPrint (args : list Printed).

Definition Trace := list Event.

(** The world: each answer may depend on everything that happened before.
    A fetch that [feedparser.parse] reports as failed is a feed without
    entries; a fetch on which it raises is outside the model.  A relay call
    answers [Some e] when it raises [e]. *)
Record World := mkWorld {
  w_getenv : string -> option string;
  w_utcnow : Trace -> Date;
  w_now : Trace -> Date;
  w_feed : Trace -> string -> list Entry;
  w_smtp : Trace -> SmtpOp -> option exn
}.

Inductive res (A : Type) :=
| Ok (a : A)
| Raise (e : exn).
Arguments Ok {A} a.
Arguments Raise {A} e.

Definition M (A : Type) := Trace -> res A * Trace.

Definition ret {A} (a : A) : M A := fun tr => (Ok a, tr).

Definition raise {A} (e : exn) : M A := fun tr => (Raise e, tr).

Definition bind {A B} (c : M A) (k : A -> M B) : M B :=
  fun tr =>
    match c tr with
    | (Ok a, tr') => k a tr'
    | (Raise e, tr') => (Raise e, tr')
    end.

Notation "x <- c ;; k" := (bind c (fun x => k))
  (at level 61, c at next level, right associativity).
Notation "c ;; k" := (bind c (fun _ => k))
  (at level 61, right associativity).

(** [try: c except Exception as e: handler e]. *)
Definition try_except {A} (c : M A) (handler : exn -> M A) : M A :=
  fun tr =>
    match c tr with
    | (Ok a, tr') => (Ok a, tr')
    | (Raise e, tr') => handler e tr'
    end.

Definition emit (ev : Event) : M unit := fun tr => (Ok tt, tr ++ [ev]).

Definition print (args : list Printed) : M unit := emit (EvPrint args).

(** Reading an attribute that may be absent. *)
Definition getattr {A} (name : string) (field : option A) : M A :=
  match field with
  | Some a => ret a
  | None => raise (AttributeError name)
  end.

(** A [for] loop that updates local variables [S]. *)
Fixpoint for_each {A S} (l : list A) (body : S -> A -> M S) (s : S) : M S :=
  match l with
  | [] => ret s
  | a :: r => s' <- body s a ;; for_each r body s'
  end.

Fixpoint map_M {A B} (f : A -> M B) (l : list A) : M (list B) :=
  match l with
  | [] => ret []
  | a :: r => b <- f a ;; bs <- map_M f r ;; ret (b :: bs)
  end.

Definition utcnow (w : World) : M Date :=
  fun tr => (Ok (w_utcnow w tr), tr ++ [EvClockUtc]).

Definition now (w : World) : M Date :=
  fun tr => (Ok (w_now w tr), tr ++ [EvClockLocal]).

Definition feedparser_parse (w : World) (url : string) : M (list Entry) :=
  fun tr => (Ok (w_feed w tr url), tr ++ [EvFetch url]).

Definition smtp (w : World) (op : SmtpOp) : M unit :=
  fun tr =>
    match w_smtp w tr op with
    | None => (Ok tt, tr ++ [EvSmtp op])
    | Some e => (Raise e, tr ++ [EvSmtp op])
    end.

(** [os.getenv] at import time. *)
Definition SENDER_EMAIL (w : World) : option string := w_getenv w "SENDER_EMAIL".
Definition SENDER_PASSWORD (w : World) : option string :=
  w_getenv w "SENDER_PASSWORD".

(** The exit status of the process. *)
Definition exit_code {A} (r : res A) : nat :=
  match r with
  | Ok _ => 0
  | Raise _ => 1
  end.

Definition is_network (ev : Event) : bool :=
  match ev with
  | EvFetch _ | EvSmtp _ => true
  | _ => false
  end.

Definition is_sendmail (ev : Event) : bool :=
  match ev with
  | EvSmtp (SmtpSendmail _ _ _) => true
  | _ => false
  end.

Definition is_connect (ev : Event) : bool :=
  match ev with
  | EvSmtp (SmtpConnect _ _) => true
  | _ => false
  end.

(** [enumerate(l, start)]. *)
Definition enumerate {A} (start : nat) (l : list A) : list (nat * A) :=
  combine (seq start (List.length l)) l.

(** Python's truth value of a list. *)
Definition truthy {A} (l : list A) : bool :=
  match l with
  | [] => false
  | _ :: _ => true
  end.

(** ** Proof steps for closed goals *)

Ltac by_computation :=
  repeat split;
  try (apply Nat.leb_le; vm_compute; reflexivity);
  try (vm_compute; reflexivity).

Ltac distinct_keys :=
  unfold PyDict.wf; simpl; repeat constructor; simpl; intuition discriminate.

(** ** Sample data *)

Definition sample_paper (t kw grp : string) : Paper :=
  {| title := t; authors := "A. Author, B. Author"; summary := "An abstract.";
     link := "http://arxiv.org/abs/0000.00000"; keyword := kw; group := grp |}.

(** Three groups; the title of the first paper comes back, in other case and
    with blanks, in the first and in the second group. *)
Definition sample_groups : GroupedResults :=
  [ ("A", [sample_paper "Foo study" "foo" "A";
           sample_paper "Other work" "work" "A";
           sample_paper " foo STUDY " "study" "A"]);
    ("B", [sample_paper "FOO STUDY" "foo" "B"]);
    ("C", []);
    ("D", [sample_paper "Bar result" "bar" "D";
           sample_paper "other work" "work" "D"]) ].


Definition empty_groups : GroupedResults := [("A", []); ("B", [])].

Definition sample_entry (t published : string) (tags : option (list Tag))
  : Entry :=
  {| e_title := Some t;
     e_summary := Some "We demonstrate a device.";
     e_authors := Some [Some "A. Author"; Some "B. Author"];
     e_link := Some "http://arxiv.org/abs/2401.00001v1";
     e_published := Some published;
     e_tags := tags |}.

Definition optics_tags : option (list Tag) :=
  Some [TagDict (Some (Some "physics.optics"))].

(** Matches the keywords [SiN] (first group) and [electro-optic] (last
    group) of the script's configuration. *)
Definition entry_sin : Entry :=
  sample_entry "SiN electro-optic switch" "2024-01-02T09:30:00Z" optics_tags.

Definition entry_foo_bar : Entry :=
  sample_entry "Foo bar study" "2024-01-02T09:30:00Z" optics_tags.

Definition entry_old : Entry :=
  sample_entry "Bar result" "2023-12-30T08:00:00Z" optics_tags.

Definition entry_no_tags : Entry :=
  sample_entry "Bar result" "2024-01-02T09:30:00Z" None.

Definition entry_no_published : Entry :=
  {| e_title := Some "Bar result";
     e_summary := Some "We demonstrate a device.";
     e_authors := Some [Some "A. Author"];
     e_link := Some "http://arxiv.org/abs/2401.00002v1";
     e_published := None;
     e_tags := optics_tags |}.

(** Two groups of one keyword each. *)
Definition tiny_config : Config := {|
  RECEIVER_EMAILS := ["reader@example.org"];
  STRICT_CATEGORY_MODE := true;
  DAYS_BACK := 5;
  KEYWORD_GROUPS := [("A", ["foo"]); ("B", ["bar"])];
  CATEGORIES := ["physics.optics"; "quant-ph"];
  MAX_RESULTS := 50;
  BASE_URL := "http://export.arxiv.org/api/query?"
|}.

Definition lenient_config : Config := {|
  RECEIVER_EMAILS := RECEIVER_EMAILS default_config;
  STRICT_CATEGORY_MODE := false;
  DAYS_BACK := DAYS_BACK default_config;
  KEYWORD_GROUPS := KEYWORD_GROUPS default_config;
  CATEGORIES := CATEGORIES default_config;
  MAX_RESULTS := MAX_RESULTS default_config;
  BASE_URL := BASE_URL default_config
|}.

Definition secrets_set (name : string) : option string :=
  if String.eqb name "SENDER_EMAIL" then Some "digest@example.org"
  else if String.eqb name "SENDER_PASSWORD" then Some "app-password"
  else None.

Definition secrets_unset (name : string) : option string := None.

Definition relay_accepts (tr : Trace) (op : SmtpOp) : option exn := None.

(** A relay that refuses every login. *)
Definition relay_refuses_login (tr : Trace) (op : SmtpOp) : option exn :=
  match op with
  | SmtpLogin _ _ =>
      Some (Exn "SMTPAuthenticationError" "Username and Password not accepted")
  | _ => None
  end.

(** It is 2024-01-06, so the cutoff is 2024-01-01; every query answers
    [entries]. *)
Definition sample_world (env : string -> option string)
    (entries : list Entry) (relay : Trace -> SmtpOp -> option exn) : World :=
  {| w_getenv := env;
     w_utcnow := fun _ => mkDate 2024 1 6;
     w_now := fun _ => mkDate 2024 1 6;
     w_feed := fun _ _ => entries;
     w_smtp := relay |}.


(** The same entry answers every query; the relay accepts the message. *)
Definition dup_world : World :=
  sample_world secrets_set [entry_sin] relay_accepts.

(** Neither secret is set; the feed is empty. *)
Definition no_secret_world : World :=
  sample_world secrets_unset [] relay_refuses_login.

Definition broken_feed_world : World :=
  sample_world secrets_set [entry_no_published] relay_accepts.

Definition tiny_world : World :=
  sample_world secrets_set [entry_foo_bar; entry_old] relay_accepts.



(** Three groups without a repeated title. *)
Definition distinct_groups : GroupedResults :=
  [ ("A", [sample_paper "Foo study" "foo" "A";
           sample_paper "Other work" "work" "A"]);
    ("B", []);
    ("D", [sample_paper "Bar result" "bar" "D"]) ].

(** Every query comes back empty; the relay accepts the message. *)
Definition quiet_world : World :=
  sample_world secrets_set [] relay_accepts.


(** ** The script *)

Section Program.

(** [str.lower] and [str.strip] of the interpreter. *)
Variable str_lower : string -> string.
Variable str_strip : string -> string.

(** *** Searching *)

Definition get_start_date_str (cfg : Config) (w : World) : M string :=
  t <- utcnow w ;;
  ret (strftime_Ymd (minus_days t (DAYS_BACK cfg))).

Definition keyword_matched (text keyword : string) : bool :=
  str_in (str_lower keyword) (str_lower text).

(** One turn of [for tag in entry.tags]. *)
Definition collect_term (categories : list (option string)) (tag : Tag)
  : list (option string) :=
  match tag with
  | TagDict (Some term) => categories ++ [term]
  | TagDict None => categories
  | TagStr s => categories ++ [Some s]
  | TagOther => categories
  end.

(** [cat in categories]; a term that is not text equals no category. *)
Definition cat_in (cat : string) (categories : list (option string)) : bool :=
  existsb (fun v => match v with
                    | Some s => String.eqb cat s
                    | None => false
                    end) categories.

Definition is_category_allowed (cfg : Config) (entry : Entry) : M bool :=
  if negb (STRICT_CATEGORY_MODE cfg) then ret true
  else
    try_except
      (tags <- getattr "tags" (e_tags entry) ;;
       let categories := fold_left collect_term tags [] in
       ret (existsb (fun cat => cat_in cat categories) (CATEGORIES cfg)))
      (fun _ => ret false).

Definition search_url (cfg : Config) (kw : string) : string :=
  let encoded_kw := quote kw in
  let cat_query :=
    String.concat "+OR+" (map (fun cat => "cat:" +++ quote cat) (CATEGORIES cfg)) in
  BASE_URL cfg +++ "search_query=(ti:" +++ encoded_kw +++ "+OR+abs:"
  +++ encoded_kw +++ ")+AND+(" +++ cat_query
  +++ ")&sortBy=submittedDate&sortOrder=descending&max_results="
  +++ str_of_nat (MAX_RESULTS cfg).

(** One turn of [for entry in feed.entries]. *)
Definition search_entry (cfg : Config) (start_date group_name kw : string)
    (matched : list Paper) (entry : Entry) : M (list Paper) :=
  raw <- getattr "published" (e_published entry) ;;
  let published := split_head "T" raw in
  allowed <- (if str_ge published start_date
              then is_category_allowed cfg entry
              else ret false) ;;
  if allowed then
    raw_title <- getattr "title" (e_title entry) ;;
    let title' := str_replace (ascii_of_nat 10) " " (str_strip raw_title) in
    raw_summary <- getattr "summary" (e_summary entry) ;;
    let abstract := str_replace (ascii_of_nat 10) " " (str_strip raw_summary) in
    if keyword_matched title' kw || keyword_matched abstract kw then
      people <- getattr "authors" (e_authors entry) ;;
      names <- map_M (getattr "name") people ;;
      link' <- getattr "link" (e_link entry) ;;
      ret (matched ++ [{| title := title';
                          authors := String.concat ", " names;
                          summary := abstract;
                          link := link';
                          keyword := kw;
                          group := group_name |}])
    else ret matched
  else ret matched.

(** One turn of [for kw in keywords]. *)
Definition search_keyword (cfg : Config) (w : World)
    (start_date group_name : string) (matched : list Paper) (kw : string)
  : M (list Paper) :=
  let url := search_url cfg kw in
  print [PStr ("🔍 [" +++ group_name +++ "] Searching: " +++ kw)] ;;
  entries <- feedparser_parse w url ;;
  for_each entries (search_entry cfg start_date group_name kw) matched.

Definition search_group (cfg : Config) (w : World) (group_name : string)
    (keywords : list string) : M (list Paper) :=
  start_date <- get_start_date_str cfg w ;;
  for_each keywords (search_keyword cfg w start_date group_name) [].

(** *** Formatting *)

Definition no_papers_body (cfg : Config) : string :=
  "🛑 最近 " +++ str_of_nat (DAYS_BACK cfg)
  +++ " 天内 arXiv 上没有找到匹配关键词的新论文。".

Definition intro_line : string := "📚 arXiv 关键词论文更新如下：" +++ nl.

Definition group_header (group_name : string) (count : nat) : string :=
  "#### 【" +++ group_name +++ "】 (" +++ str_of_nat count +++ " 篇)" +++ nl.

Definition total_line (total_papers : nat) : string :=
  nl +++ "📊 共匹配到 " +++ str_of_nat total_papers +++ " 篇论文。".

(** One turn of [for i, paper in enumerate(papers, 1)]. *)
Definition format_paper (cfg : Config) (lines : list string)
    (ip : nat * Paper) : list string :=
  let '(i, paper) := ip in
  let lines := lines ++ [str_of_nat i +++ ". " +++ title paper] in
  let lines := lines ++ ["   作者: " +++ authors paper] in
  let lines := lines ++ ["   匹配关键词（精确）: " +++ keyword paper] in
  let lines :=
    lines ++ ["   分类限定: " +++ String.concat ", " (CATEGORIES cfg)] in
  let lines := lines ++ ["   链接: " +++ link paper] in
  lines ++ ["   摘要: " +++ summary paper +++ nl].

(** One turn of [for group_name, papers in grouped_entries.items()]. *)
Definition format_group (cfg : Config) (st : list string * nat)
    (item : string * list Paper) : list string * nat :=
  let '(lines, total_papers) := st in
  let '(group_name, papers) := item in
  if negb (truthy papers) then (lines, total_papers)
  else
    let lines := lines ++ [group_header group_name (List.length papers)] in
    let total_papers := total_papers + List.length papers in
    (fold_left (format_paper cfg) (enumerate 1 papers) lines, total_papers).

(** The list [lines] when the last line has been appended. *)
Definition digest_lines (cfg : Config) (grouped_entries : GroupedResults)
  : list string :=
  let '(lines, total_papers) :=
    fold_left (format_group cfg) grouped_entries ([intro_line], 0) in
  lines ++ [total_line total_papers].

Definition format_digest (cfg : Config) (grouped_entries : GroupedResults)
  : string :=
  if forallb (fun papers => List.length papers =? 0)
             (PyDict.values grouped_entries)
  then no_papers_body cfg
  else String.concat nl (digest_lines cfg grouped_entries).

(** *** Mailing *)

Definition send_email (cfg : Config) (w : World) (subject body : string)
  : M unit :=
  let msg := {| msg_body := body;
                msg_subject := subject;
                msg_from := SENDER_EMAIL w;
                msg_to := String.concat ", " (RECEIVER_EMAILS cfg) |} in
  try_except
    (smtp w (SmtpConnect "smtp.gmail.com" 587) ;;
     smtp w SmtpEhlo ;;
     smtp w SmtpStarttls ;;
     smtp w SmtpEhlo ;;
     smtp w (SmtpLogin (SENDER_EMAIL w) (SENDER_PASSWORD w)) ;;
     smtp w (SmtpSendmail (SENDER_EMAIL w) (RECEIVER_EMAILS cfg) msg) ;;
     smtp w SmtpQuit ;;
     print [PStr "Email sent to:"; PStrList (RECEIVER_EMAILS cfg)])
    (fun e =>
       print [PStr "Email send failed:"; PStr (exn_msg e)] ;;
       raise e).

(** *** Deduplication *)

Definition title_key (paper : Paper) : string :=
  str_lower (str_strip (title paper)).

(** One turn of [for paper in papers]. *)
Definition dedup_paper (group_name : string)
    (st : pyset * GroupedResults) (paper : Paper) : pyset * GroupedResults :=
  let '(seen_titles, deduped) := st in
  if negb (set_in (title_key paper) seen_titles) then
    (set_add (title_key paper) seen_titles,
     PyDict.append deduped group_name paper)
  else (seen_titles, deduped).

(** One turn of [for group_name, papers in grouped_entries.items()]. *)
Definition dedup_group (st : pyset * GroupedResults)
    (item : string * list Paper) : pyset * GroupedResults :=
  let '(seen_titles, deduped) := st in
  let '(group_name, papers) := item in
  fold_left (dedup_paper group_name) papers
            (seen_titles, PyDict.set deduped group_name []).

Definition deduplicate_grouped_entries (grouped_entries : GroupedResults)
  : GroupedResults :=
  snd (fold_left dedup_group grouped_entries (set_empty, [])).

(** *** The main flow *)

(** One turn of [for group_name, kw_list in KEYWORD_GROUPS.items()]. *)
Definition main_group (cfg : Config) (w : World)
    (st : GroupedResults * nat) (item : string * list string)
  : M (GroupedResults * nat) :=
  let '(all_grouped, total_groups_with_hits) := st in
  let '(group_name, kw_list) := item in
  results <- search_group cfg w group_name kw_list ;;
  let total_groups_with_hits :=
    if truthy results then total_groups_with_hits + 1
    else total_groups_with_hits in
  ret (PyDict.set all_grouped group_name results, total_groups_with_hits).

(** The search loop of the main flow. *)
Definition search_all (cfg : Config) (w : World) : M (GroupedResults * nat) :=
  for_each (KEYWORD_GROUPS cfg) (main_group cfg w) ([], 0).

Definition subject_line (today_str : string) (groups_with_hits : nat)
  : string :=
  "📬 arXiv Digest – " +++ today_str +++ " | "
  +++ str_of_nat groups_with_hits +++ " Groups Matched".

Definition main (cfg : Config) (w : World) : M unit :=
  print [PStr "🔍 正在抓取 arXiv 论文..."] ;;
  st <- search_all cfg w ;;
  let '(all_grouped, total_groups_with_hits) := st in
  let all_grouped_deduped := deduplicate_grouped_entries all_grouped in
  let email_body := format_digest cfg all_grouped_deduped in
  today <- now w ;;
  let today_str := strftime_Ymd today in
  let subject := subject_line today_str total_groups_with_hits in
  send_email cfg w subject email_body.

(** *** The deduplicator as the specification words it *)



(** The groups of [g] before position [i], flattened. *)
Definition earlier (i : nat) (g : GroupedResults) : list Paper :=
  flatten (firstn i g).

(** *** Recursive reading of the two loops of the deduplicator *)

Fixpoint keep_unseen (seen : pyset) (ps : list Paper) : list Paper :=
  match ps with
  | [] => []
  | p :: r =>
      if set_in (title_key p) seen then keep_unseen seen r
      else p :: keep_unseen (set_add (title_key p) seen) r
  end.

Fixpoint mark_seen (seen : pyset) (ps : list Paper) : pyset :=
  match ps with
  | [] => seen
  | p :: r =>
      if set_in (title_key p) seen then mark_seen seen r
      else mark_seen (set_add (title_key p) seen) r
  end.

Fixpoint dedup_from (seen : pyset) (g : GroupedResults) : GroupedResults :=
  match g with
  | [] => []
  | (name, ps) :: rest =>
      (name, keep_unseen seen ps) :: dedup_from (mark_seen seen ps) rest
  end.

(** *** The digest body as the specification words it *)





Definition nonempty_groups (g : GroupedResults) : GroupedResults :=
  filter (fun item => truthy (snd item)) g.



(** *** Vocabulary of the claims on searching and mailing *)

(** [entry] with other category tags. *)
Definition set_tags (entry : Entry) (tags : option (list Tag)) : Entry :=
  {| e_title := e_title entry; e_summary := e_summary entry;
     e_authors := e_authors entry; e_link := e_link entry;
     e_published := e_published entry; e_tags := tags |}.

(** [w] with another process environment. *)
Definition set_getenv (w : World) (env : string -> option string) : World :=
  {| w_getenv := env; w_utcnow := w_utcnow w; w_now := w_now w;
     w_feed := w_feed w; w_smtp := w_smtp w |}.

(** A tag from which the category check gets no text. *)
Definition malformed_tag (tag : Tag) : Prop :=
  match tag with
  | TagDict None | TagDict (Some None) | TagOther => True
  | TagDict (Some (Some _)) | TagStr _ => False
  end.

(** The published timestamp starts with the date [d] printed on ten
    characters; the time part, if any, follows. *)
Definition published_on (entry : Entry) (d : Date) : Prop :=
  exists rest, e_published entry = Some (strftime_Ymd d +++ rest).

(** The exceptions of the relay calls recorded in [todo], a log that
    continues [before]. *)
Fixpoint failures_from (w : World) (before todo : Trace) : list exn :=
  match todo with
  | [] => []
  | ev :: rest =>
      match ev with
      | EvSmtp op =>
          match w_smtp w before op with
          | Some e => [e]
          | None => []
          end
      | _ => []
      end ++ failures_from w (before ++ [ev]) rest
  end.

(** A relay call of the log [tr] raised [e]. *)
Definition smtp_failed (w : World) (tr : Trace) (e : exn) : Prop :=
  exists before op rest,
    tr = before ++ EvSmtp op :: rest /\ w_smtp w before op = Some e.

Definition is_smtp (ev : Event) : bool :=
  match ev with
  | EvSmtp _ => true
  | _ => false
  end.

(** Every event a computation adds to the log satisfies [P]. *)
Definition emits {A} (P : Event -> Prop) (c : M A) : Prop :=
  forall tr, exists evs, snd (c tr) = tr ++ evs /\ Forall P evs.


(** The log of a computation continues the log it starts from with [evs],
    then possibly more. *)
Definition starts_with {A} (evs : list Event) (c : M A) : Prop :=
  forall tr, exists rest, snd (c tr) = tr ++ evs ++ rest.

(** An event that is not a call on the relay. *)
Definition off_relay (ev : Event) : Prop := is_smtp ev = false.


(** The subjects of the messages submitted in a log. *)
Definition sent_subjects (tr : Trace) : list string :=
  flat_map (fun ev => match ev with
                      | EvSmtp (SmtpSendmail _ _ msg) => [msg_subject msg]
                      | _ => []
                      end) tr.

(** What the search loop of a run returns. *)
Definition search_outcome (cfg : Config) (w : World)
  : res (GroupedResults * nat) :=
  fst (search_all cfg w [EvPrint [PStr "🔍 正在抓取 arXiv 论文..."]]).

(** The number of groups left non-empty by the deduplicator. *)
Definition groups_after_dedup (r : res (GroupedResults * nat)) : option nat :=
  match r with
  | Ok (g, _) =>
      Some (List.length (nonempty_groups (deduplicate_grouped_entries g)))
  | Raise _ => None
  end.


(** What the search loop finds in [tiny_world] under [tiny_config], and its
    log. *)
Definition tiny_found : GroupedResults :=
  [ ("A", [ {| title := "Foo bar study"; authors := "A. Author, B. Author";
               summary := "We demonstrate a device.";
               link := "http://arxiv.org/abs/2401.00001v1";
               keyword := "foo"; group := "A" |} ]);
    ("B", [ {| title := "Foo bar study"; authors := "A. Author, B. Author";
               summary := "We demonstrate a device.";
               link := "http://arxiv.org/abs/2401.00001v1";
               keyword := "bar"; group := "B" |} ]) ].

Definition tiny_log : Trace :=
  [ EvPrint [PStr "🔍 正在抓取 arXiv 论文..."];
    EvClockUtc;
    EvPrint [PStr "🔍 [A] Searching: foo"];
    EvFetch (search_url tiny_config "foo");
    EvClockUtc;
    EvPrint [PStr "🔍 [B] Searching: bar"];
    EvFetch (search_url tiny_config "bar") ].


(** *** Vocabulary of the further properties *)

(** The URLs fetched in a log, in order. *)
Definition fetched (tr : Trace) : list string :=
  flat_map (fun ev => match ev with
                      | EvFetch url => [url]
                      | _ => []
                      end) tr.

(** Every keyword of the configuration, in group order then keyword
    order. *)
Definition all_keywords (cfg : Config) : list string :=
  flat_map snd (KEYWORD_GROUPS cfg).

(** What the search of a group promises of a paper it returns. *)
Definition found_under (group_name : string) (keywords : list string)
    (p : Paper) : Prop :=
  group p = group_name
  /\ In (keyword p) keywords
  /\ keyword_matched (title p) (keyword p)
     || keyword_matched (summary p) (keyword p) = true
  /\ has_char (ascii_of_nat 10) (title p) = false
  /\ has_char (ascii_of_nat 10) (summary p) = false.

(** A tag that carries the category [cat] as text. *)
Definition tag_names (cat : string) (tag : Tag) : Prop :=
  tag = TagStr cat \/ tag = TagDict (Some (Some cat)).


(** Every character of [s] satisfies [P]. *)
Fixpoint all_chars (P : ascii -> bool) (s : string) : bool :=
  match s with
  | "" => true
  | String c r => P c && all_chars P r
  end.

(** A printable ASCII character other than the blank. *)
Definition url_char (c : ascii) : bool := in_range 33 126 (nat_of_ascii c).


(** ** Properties of the deduplicator *)

Lemma dict_set_fresh {V} (d : PyDict.dict V) k v :
  ~ In k (PyDict.keys d) -> PyDict.set d k v = d ++ [(k, v)].
Proof.
  induction d as [|[k' v'] d IH]; simpl; intros Hk; [reflexivity|].
  destruct (String.eqb_spec k' k) as [->|_].
  - exfalso; apply Hk; now left.
  - rewrite IH; [reflexivity|]. intros H; apply Hk; now right.
Qed.

Lemma dict_append_last {A} (d : PyDict.dict (list A)) k l x :
  ~ In k (PyDict.keys d) ->
  PyDict.append (d ++ [(k, l)]) k x = d ++ [(k, l ++ [x])].
Proof.
  induction d as [|[k' l'] d IH]; simpl; intros Hk.
  - now rewrite String.eqb_refl.
  - destruct (String.eqb_spec k' k) as [->|_].
    + exfalso; apply Hk; now left.
    + rewrite IH; [reflexivity|]. intros H; apply Hk; now right.
Qed.

Lemma dedup_papers_fold name ps : forall seen d acc,
  ~ In name (PyDict.keys d) ->
  fold_left (dedup_paper name) ps (seen, d ++ [(name, acc)])
  = (mark_seen seen ps, d ++ [(name, acc ++ keep_unseen seen ps)]).
Proof.
  induction ps as [|p ps IH]; intros seen d acc Hk; simpl.
  - now rewrite app_nil_r.
  - destruct (set_in (title_key p) seen) eqn:E; simpl.
    + now apply IH.
    + rewrite dict_append_last by assumption.
      rewrite IH by assumption.
      now rewrite <- app_assoc.
Qed.

Lemma keep_unseen_app a : forall seen b,
  keep_unseen seen (a ++ b)
  = keep_unseen seen a ++ keep_unseen (mark_seen seen a) b.
Proof.
  induction a as [|p a IH]; intros seen b; simpl; [reflexivity|].
  destruct (set_in (title_key p) seen); simpl; now rewrite IH.
Qed.

Lemma mark_seen_app a : forall seen b,
  mark_seen seen (a ++ b) = mark_seen (mark_seen seen a) b.
Proof.
  induction a as [|p a IH]; intros seen b; simpl; [reflexivity|].
  destruct (set_in (title_key p) seen); now rewrite IH.
Qed.

Lemma dedup_groups_fold g : forall seen d,
  PyDict.wf g ->
  (forall k, In k (PyDict.keys g) -> ~ In k (PyDict.keys d)) ->
  fold_left dedup_group g (seen, d)
  = (mark_seen seen (flatten g), d ++ dedup_from seen g).
Proof.
  unfold PyDict.wf.
  induction g as [|[name ps] g IH]; intros seen d Hwf Hfresh; simpl.
  - now rewrite app_nil_r.
  - inversion Hwf as [|? ? Hnotin Hwf']; subst.
    assert (Hname : ~ In name (PyDict.keys d)) by (apply Hfresh; now left).
    rewrite dict_set_fresh by assumption.
    rewrite dedup_papers_fold by assumption. simpl.
    rewrite IH.
    + unfold flatten; simpl. rewrite mark_seen_app.
      now rewrite <- app_assoc.
    + assumption.
    + intros k Hk Hin. unfold PyDict.keys in Hin.
      rewrite map_app in Hin. apply in_app_or in Hin.
      destruct Hin as [Hin|[<-|[]]].
      * apply (Hfresh k); [now right | exact Hin].
      * now apply Hnotin.
Qed.

Lemma dedup_reading g :
  PyDict.wf g -> deduplicate_grouped_entries g = dedup_from set_empty g.
Proof.
  intros Hwf. unfold deduplicate_grouped_entries.
  rewrite dedup_groups_fold; auto.
Qed.


Lemma set_in_app k a b : set_in k (a ++ b) = set_in k a || set_in k b.
Proof. unfold set_in. apply existsb_app. Qed.






Lemma keys_dedup_from g : forall seen,
  PyDict.keys (dedup_from seen g) = PyDict.keys g.
Proof.
  induction g as [|[name ps] g IH]; intros seen; simpl; [reflexivity|].
  now rewrite IH.
Qed.

Lemma flatten_dedup_from g : forall seen,
  flatten (dedup_from seen g) = keep_unseen seen (flatten g).
Proof.
  unfold flatten.
  induction g as [|[name ps] g IH]; intros seen; simpl; [reflexivity|].
  now rewrite IH, keep_unseen_app.
Qed.

Lemma In_set_in k s : In k s <-> set_in k s = true.
Proof.
  unfold set_in. rewrite existsb_exists. split.
  - intros H. exists k. split; [assumption | apply String.eqb_refl].
  - intros [x [Hx E]]. apply String.eqb_eq in E. now subst.
Qed.

Lemma keep_unseen_keys l : forall seen k,
  In k (map title_key (keep_unseen seen l)) ->
  set_in k seen = false /\ In k (map title_key l).
Proof.
  induction l as [|p l IH]; intros seen k; simpl; [intros []|].
  destruct (set_in (title_key p) seen) eqn:E.
  - intros H. apply IH in H. tauto.
  - simpl. intros [<-|H]; [tauto|].
    apply IH in H. destruct H as [H1 H2]. simpl in H1.
    apply orb_false_elim in H1. tauto.
Qed.


Lemma nth_error_dedup_from g : forall seen i name ps,
  nth_error g i = Some (name, ps) ->
  nth_error (dedup_from seen g) i
  = Some (name, keep_unseen (mark_seen seen (earlier i g)) ps).
Proof.
  unfold earlier, flatten.
  induction g as [|[n0 ps0] g IH]; intros seen i name ps H.
  - destruct i; discriminate.
  - destruct i as [|i]; simpl in *.
    + now inversion H.
    + rewrite (IH _ _ _ _ H). now rewrite mark_seen_app.
Qed.

Lemma keep_unseen_idem l : forall seen,
  keep_unseen seen (keep_unseen seen l) = keep_unseen seen l.
Proof.
  induction l as [|p l IH]; intros seen; simpl; [reflexivity|].
  destruct (set_in (title_key p) seen) eqn:E; [apply IH|].
  simpl. rewrite E. now rewrite IH.
Qed.

Lemma mark_seen_keep_unseen l : forall seen,
  mark_seen seen (keep_unseen seen l) = mark_seen seen l.
Proof.
  induction l as [|p l IH]; intros seen; simpl; [reflexivity|].
  destruct (set_in (title_key p) seen) eqn:E; [apply IH|].
  simpl. rewrite E. now rewrite IH.
Qed.

Lemma dedup_from_idem g : forall seen,
  dedup_from seen (dedup_from seen g) = dedup_from seen g.
Proof.
  induction g as [|[name ps] g IH]; intros seen; simpl; [reflexivity|].
  now rewrite keep_unseen_idem, mark_seen_keep_unseen, IH.
Qed.

Lemma keep_unseen_retains l : forall seen k,
  In k (map title_key l) -> set_in k seen = false ->
  In k (map title_key (keep_unseen seen l)).
Proof.
  induction l as [|p l IH]; intros seen k; simpl; [intros []|].
  intros Hin Hk. destruct (set_in (title_key p) seen) eqn:E.
  - destruct Hin as [<-|Hin]; [congruence|]. now apply IH.
  - simpl. destruct (String.eqb_spec k (title_key p)) as [->|Hne].
    + now left.
    + right. destruct Hin as [Heq|Hin]; [now symmetry in Heq|].
      apply IH; [assumption|]. simpl.
      destruct (String.eqb_spec k (title_key p)); [congruence|assumption].
Qed.



(** C8: deduplicating the deduplicator's own output changes nothing. *)
Theorem dedup_idempotent (g : GroupedResults) :
  PyDict.wf g ->
  deduplicate_grouped_entries (deduplicate_grouped_entries g)
  = deduplicate_grouped_entries g.
Proof.
  intros Hwf. rewrite (dedup_reading g Hwf).
  rewrite dedup_reading.
  - apply dedup_from_idem.
  - unfold PyDict.wf. now rewrite keys_dedup_from.
Qed.

(** ** Properties of the formatter *)



Lemma all_empty_iff (g : GroupedResults) :
  forallb (fun papers => List.length papers =? 0) (PyDict.values g) = true
  <-> Forall (fun item => snd item = []) g.
Proof.
  unfold PyDict.values. rewrite forallb_forall, Forall_forall. split.
  - intros H [name ps] Hin. simpl.
    specialize (H ps (in_map snd _ _ Hin)).
    apply Nat.eqb_eq in H. now destruct ps.
  - intros H ps Hin. apply in_map_iff in Hin.
    destruct Hin as [item [<- Hin]]. now rewrite (H item Hin).
Qed.





(** C7: when every group of the GroupedResults is empty, the formatter
    returns exactly the fixed no-new-papers body for the lookback window:
    no line list is built, so no header and no total line. *)
Theorem format_digest_all_empty (cfg : Config) (g : GroupedResults) :
  Forall (fun item => snd item = []) g ->
  format_digest cfg g = no_papers_body cfg.
Proof.
  intros H. unfold format_digest.
  apply all_empty_iff in H. now rewrite H.
Qed.


(** ** Properties of the effects *)

Lemma emits_ret {A} P (a : A) : emits P (ret a).
Proof. intros tr. exists []. simpl. now rewrite app_nil_r. Qed.

Lemma emits_raise {A} P e : emits P (@raise A e).
Proof. intros tr. exists []. simpl. now rewrite app_nil_r. Qed.

Lemma emits_emit (P : Event -> Prop) ev : P ev -> emits P (emit ev).
Proof. intros H tr. exists [ev]. simpl. auto. Qed.

Lemma emits_bind {A B} P (c : M A) (k : A -> M B) :
  emits P c -> (forall a, emits P (k a)) -> emits P (bind c k).
Proof.
  intros Hc Hk tr. unfold bind.
  destruct (Hc tr) as [evs [E HP]].
  destruct (c tr) as [[a|e] tr1]; simpl in E; subst tr1.
  - destruct (Hk a (tr ++ evs)) as [evs' [E' HP']].
    exists (evs ++ evs'). rewrite E', app_assoc. split; [reflexivity|].
    apply Forall_app; auto.
  - exists evs. auto.
Qed.

Lemma emits_try_except {A} P (c : M A) handler :
  emits P c -> (forall e, emits P (handler e)) -> emits P (try_except c handler).
Proof.
  intros Hc Hh tr. unfold try_except.
  destruct (Hc tr) as [evs [E HP]].
  destruct (c tr) as [[a|e] tr1]; simpl in E; subst tr1.
  - exists evs. auto.
  - destruct (Hh e (tr ++ evs)) as [evs' [E' HP']].
    exists (evs ++ evs'). rewrite E', app_assoc. split; [reflexivity|].
    apply Forall_app; auto.
Qed.

Lemma emits_getattr {A} P name (field : option A) : emits P (getattr name field).
Proof. destruct field; [apply emits_ret | apply emits_raise]. Qed.

Lemma emits_for_each {A S} P (body : S -> A -> M S) l :
  (forall s a, emits P (body s a)) -> forall s, emits P (for_each l body s).
Proof.
  intros Hb. induction l as [|a l IH]; intros s; simpl.
  - apply emits_ret.
  - apply emits_bind; auto.
Qed.

Lemma emits_map_M {A B} P (f : A -> M B) l :
  (forall a, emits P (f a)) -> emits P (map_M f l).
Proof.
  intros Hf. induction l as [|a l IH]; simpl.
  - apply emits_ret.
  - apply emits_bind; [auto|]. intros b.
    apply emits_bind; [auto|]. intros bs. apply emits_ret.
Qed.

Lemma emits_impl {A} (P Q : Event -> Prop) (c : M A) :
  (forall ev, P ev -> Q ev) -> emits P c -> emits Q c.
Proof.
  intros HPQ Hc tr. destruct (Hc tr) as [evs [E HP]].
  exists evs. split; [assumption|]. eapply Forall_impl; eauto.
Qed.


(** ** Properties of text and dates *)

Lemma length_append (a b : string) :
  String.length (a +++ b) = String.length a + String.length b.
Proof. induction a as [|c a IH]; simpl; [reflexivity | now rewrite IH]. Qed.

Lemma length_zero_pad w : forall n, String.length (zero_pad w n) = w.
Proof.
  induction w as [|w IH]; intros n; simpl; [reflexivity|].
  rewrite length_append, IH. simpl. lia.
Qed.

(** Texts of equal length compare before what follows them. *)
Lemma compare_append (a : string) : forall b x y,
  String.length a = String.length b ->
  String.compare (a +++ x) (b +++ y)
  = match String.compare a b with
    | Eq => String.compare x y
    | r => r
    end.
Proof.
  induction a as [|c a IH]; intros [|c' b] x y Hlen; simpl in *;
    try discriminate; [reflexivity|].
  destruct (Ascii.compare c c'); [|reflexivity|reflexivity].
  apply IH. congruence.
Qed.

Lemma compare_digit x y :
  x < 10 -> y < 10 ->
  Ascii.compare (ascii_of_nat (48 + x)) (ascii_of_nat (48 + y))
  = Nat.compare x y.
Proof.
  intros Hx Hy. unfold Ascii.compare. rewrite N2Nat.inj_compare.
  change (N.to_nat (N_of_ascii ?a)) with (nat_of_ascii a).
  rewrite !nat_ascii_embedding by lia.
  destruct (Nat.compare_spec x y) as [E|L|G];
    [ apply Nat.compare_eq_iff | apply Nat.compare_lt_iff
    | apply Nat.compare_gt_iff ]; lia.
Qed.

(** Fixed-width decimals compare as the numbers they print. *)
Lemma compare_zero_pad w : forall a b,
  a < 10 ^ w -> b < 10 ^ w ->
  String.compare (zero_pad w a) (zero_pad w b) = Nat.compare a b.
Proof.
  induction w as [|w IH]; intros a b Ha Hb.
  - simpl in *. assert (a = 0) by lia. assert (b = 0) by lia. now subst.
  - cbn [zero_pad].
    rewrite compare_append by (now rewrite !length_zero_pad).
    assert (Ha' : a / 10 < 10 ^ w)
      by (apply Nat.Div0.div_lt_upper_bound; simpl in Ha; lia).
    assert (Hb' : b / 10 < 10 ^ w)
      by (apply Nat.Div0.div_lt_upper_bound; simpl in Hb; lia).
    rewrite (IH _ _ Ha' Hb').
    pose proof (Nat.div_mod_eq a 10) as Ea.
    pose proof (Nat.div_mod_eq b 10) as Eb.
    pose proof (Nat.mod_upper_bound a 10 ltac:(lia)) as Ma.
    pose proof (Nat.mod_upper_bound b 10 ltac:(lia)) as Mb.
    destruct (Nat.compare_spec (a / 10) (b / 10)) as [E|L|G].
    + cbn [String.compare]. rewrite compare_digit by assumption.
      destruct (Nat.compare_spec (a mod 10) (b mod 10)) as [E'|L'|G'];
        symmetry;
        [ apply Nat.compare_eq_iff | apply Nat.compare_lt_iff
        | apply Nat.compare_gt_iff ]; lia.
    + symmetry. apply Nat.compare_lt_iff. lia.
    + symmetry. apply Nat.compare_gt_iff. lia.
Qed.

(** Ten-character dates compare as text the way the dates compare. *)
Lemma strftime_gt (c d : Date) :
  date_ok c -> date_ok d -> date_lt d c ->
  String.compare (strftime_Ymd c) (strftime_Ymd d) = Gt.
Proof.
  unfold date_ok, date_lt, strftime_Ymd.
  intros (Hyc & Hmc & Hdc) (Hyd & Hmd & Hdd) Hlt.
  rewrite compare_append by (now rewrite !length_zero_pad).
  rewrite compare_zero_pad by lia.
  rewrite (compare_append "-" "-") by reflexivity.
  cbn [String.compare Ascii.compare N_of_ascii N.compare].
  change (String.compare "-" "-") with Eq. cbv iota.
  rewrite compare_append by (now rewrite !length_zero_pad).
  rewrite compare_zero_pad by (simpl; lia).
  rewrite (compare_append "-" "-") by reflexivity.
  change (String.compare "-" "-") with Eq. cbv iota.
  rewrite compare_zero_pad by (simpl; lia).
  destruct Hlt as [H|[[E H]|[E [E' H]]]].
  - apply Nat.compare_gt_iff in H. now rewrite H.
  - rewrite E, Nat.compare_refl.
    apply Nat.compare_gt_iff in H. now rewrite H.
  - rewrite E, E', !Nat.compare_refl.
    now apply Nat.compare_gt_iff.
Qed.

Lemma has_char_append c a b :
  has_char c (a +++ b) = has_char c a || has_char c b.
Proof.
  induction a as [|x a IH]; simpl; [reflexivity|].
  now rewrite IH, orb_assoc.
Qed.

Lemma has_char_single c x : has_char c (String x "") = Ascii.eqb x c.
Proof. unfold has_char. apply orb_false_r. Qed.

Lemma zero_pad_no_T w : forall n, has_char "T" (zero_pad w n) = false.
Proof.
  induction w as [|w IH]; intros n; [reflexivity|].
  cbn [zero_pad].
  rewrite has_char_append, IH, has_char_single. cbn [orb].
  pose proof (Nat.mod_upper_bound n 10 ltac:(lia)) as Hm.
  apply Ascii.eqb_neq. intros E.
  apply (f_equal nat_of_ascii) in E.
  rewrite nat_ascii_embedding in E by lia.
  change (nat_of_ascii "T") with 84 in E. lia.
Qed.

Lemma split_head_append sep a rest :
  has_char sep a = false ->
  split_head sep (a +++ rest) = a +++ split_head sep rest.
Proof.
  induction a as [|x a IH]; simpl; intros Hno; [reflexivity|].
  apply orb_false_elim in Hno. destruct Hno as [Hx Ha].
  rewrite Hx. now rewrite IH.
Qed.

Lemma split_head_strftime d rest :
  split_head "T" (strftime_Ymd d +++ rest)
  = strftime_Ymd d +++ split_head "T" rest.
Proof.
  apply split_head_append. unfold strftime_Ymd.
  rewrite !has_char_append, !zero_pad_no_T. reflexivity.
Qed.

Lemma length_strftime d : String.length (strftime_Ymd d) = 10.
Proof.
  unfold strftime_Ymd. rewrite !length_append, !length_zero_pad. reflexivity.
Qed.

Lemma append_empty (a : string) : a +++ "" = a.
Proof. induction a as [|x a IH]; simpl; [reflexivity | now rewrite IH]. Qed.

(** The order is settled within the ten characters of the date, whatever
    follows it. *)
Lemma strftime_gt_suffix (c d : Date) (rest : string) :
  date_ok c -> date_ok d -> date_lt d c ->
  String.compare (strftime_Ymd c) (strftime_Ymd d +++ rest) = Gt.
Proof.
  intros Hc Hd Hlt.
  rewrite <- (append_empty (strftime_Ymd c)).
  rewrite compare_append by (now rewrite !length_strftime).
  now rewrite strftime_gt.
Qed.

(** ** Properties of the entry filter *)

Lemma cat_in_malformed cat tags : forall categories,
  Forall malformed_tag tags ->
  cat_in cat (fold_left collect_term tags categories) = cat_in cat categories.
Proof.
  induction tags as [|tag tags IH]; intros categories Hall; [reflexivity|].
  inversion Hall as [|? ? Htag Hrest]; subst. cbn [fold_left].
  rewrite IH by assumption.
  destruct tag as [[[s|]|]|s|]; simpl in Htag; try contradiction;
    try reflexivity.
  unfold cat_in. simpl. rewrite existsb_app. simpl. now rewrite !orb_false_r.
Qed.

Lemma existsb_never {A} (f : A -> bool) (l : list A) :
  (forall a, f a = false) -> existsb f l = false.
Proof.
  intros Hf. induction l as [|a l IH]; simpl; [reflexivity|].
  now rewrite Hf, IH.
Qed.

(** The category check answers and leaves the log alone, whatever the
    entry. *)
Lemma is_category_allowed_total cfg entry tr :
  exists b, is_category_allowed cfg entry tr = (Ok b, tr).
Proof.
  unfold is_category_allowed.
  destruct (STRICT_CATEGORY_MODE cfg); simpl; [|now exists true].
  unfold try_except, bind, getattr.
  destruct (e_tags entry) as [tags|]; simpl; eexists; reflexivity.
Qed.

Lemma search_entry_not_allowed cfg start_date group_name kw matched entry raw tr :
  e_published entry = Some raw ->
  (str_ge (split_head "T" raw) start_date = false
   \/ is_category_allowed cfg entry tr = (Ok false, tr)) ->
  search_entry cfg start_date group_name kw matched entry tr = (Ok matched, tr).
Proof.
  intros Hpub Hno. unfold search_entry. rewrite Hpub.
  unfold bind at 1. simpl.
  destruct (str_ge (split_head "T" raw) start_date) eqn:E.
  - destruct Hno as [Hno|Hno]; [discriminate|].
    unfold bind. now rewrite Hno.
  - reflexivity.
Qed.

(** C5: an entry whose published timestamp starts with a date strictly
    before the cutoff date (today in UTC minus the lookback window, as the search
    of a group computes it) adds nothing to the matches and raises nothing,
    whatever the keyword, the title, the abstract and the category tags;
    so a feed with the entry and the feed without it give the same search
    result. *)
Theorem old_entry_excluded (cfg : Config) (w : World) (tr0 : Trace)
    (entry : Entry) (d : Date) :
  date_ok (minus_days (w_utcnow w tr0) (DAYS_BACK cfg)) ->
  date_ok d ->
  published_on entry d ->
  date_lt d (minus_days (w_utcnow w tr0) (DAYS_BACK cfg)) ->
  exists start_date,
    get_start_date_str cfg w tr0 = (Ok start_date, tr0 ++ [EvClockUtc])
    /\ (forall group_name kw matched tr,
          search_entry cfg start_date group_name kw matched entry tr
          = (Ok matched, tr))
    /\ (forall group_name kw before after matched tr,
          for_each (before ++ entry :: after)
                   (search_entry cfg start_date group_name kw) matched tr
          = for_each (before ++ after)
                     (search_entry cfg start_date group_name kw) matched tr).
Proof.
  intros Hc Hd (rest & Hpub) Hlt.
  exists (strftime_Ymd (minus_days (w_utcnow w tr0) (DAYS_BACK cfg))).
  split; [reflexivity|].
  assert (Hskip : forall group_name kw matched tr,
    search_entry cfg
      (strftime_Ymd (minus_days (w_utcnow w tr0) (DAYS_BACK cfg)))
      group_name kw matched entry tr = (Ok matched, tr)).
  { intros. eapply search_entry_not_allowed; [exact Hpub|]. left.
    rewrite split_head_strftime.
    unfold str_ge, String.leb. now rewrite strftime_gt_suffix. }
  split; [exact Hskip|].
  intros group_name kw before after.
  induction before as [|e before IH]; intros matched tr; simpl.
  - unfold bind at 1. now rewrite Hskip.
  - unfold bind.
    destruct (search_entry cfg _ group_name kw matched e tr) as [[m|x] tr1];
      [apply IH | reflexivity].
Qed.

(** C9: with strict-category mode off the category check answers True for
    every entry, and the outcome of the entry filter does not depend on the
    entry's tags. *)
Theorem lenient_mode_ignores_tags (cfg : Config) :
  STRICT_CATEGORY_MODE cfg = false ->
  (forall entry tr, is_category_allowed cfg entry tr = (Ok true, tr))
  /\ (forall start_date group_name kw matched entry tags tr,
        search_entry cfg start_date group_name kw matched
                     (set_tags entry tags) tr
        = search_entry cfg start_date group_name kw matched entry tr).
Proof.
  intros Hoff. split.
  - intros entry tr. unfold is_category_allowed. now rewrite Hoff.
  - intros. unfold search_entry, is_category_allowed. rewrite Hoff.
    reflexivity.
Qed.

(** C6, amended: under strict-category mode an entry whose category tags
    are absent, or none of whose tags carries a term in text, fails the
    category check without an exception, and, its published timestamp being
    readable, is left out for the keyword with the log and the matches
    unchanged; the category check raises for no entry at all. *)
Theorem missing_tags_excluded (cfg : Config) (entry : Entry) :
  STRICT_CATEGORY_MODE cfg = true ->
  (e_tags entry = None
   \/ exists tags, e_tags entry = Some tags /\ Forall malformed_tag tags) ->
  (forall tr, is_category_allowed cfg entry tr = (Ok false, tr))
  /\ (forall raw start_date group_name kw matched tr,
        e_published entry = Some raw ->
        search_entry cfg start_date group_name kw matched entry tr
        = (Ok matched, tr))
  /\ (forall other tr, exists b, is_category_allowed cfg other tr = (Ok b, tr)).
Proof.
  intros Hon Htags.
  assert (Hno : forall tr, is_category_allowed cfg entry tr = (Ok false, tr)).
  { intros tr. unfold is_category_allowed. rewrite Hon. simpl.
    unfold try_except, bind, getattr.
    destruct Htags as [->|[tags [-> Hall]]]; simpl; [reflexivity|].
    f_equal. f_equal.
    apply existsb_never.
    intros cat. now rewrite cat_in_malformed. }
  split; [exact Hno|]. split.
  - intros raw start_date group_name kw matched tr Hpub.
    eapply search_entry_not_allowed; [exact Hpub|]. right. apply Hno.
  - intros. apply is_category_allowed_total.
Qed.


(** ** Properties of the mailer and of the main flow *)

Lemma failures_from_app w a : forall before b,
  failures_from w before (a ++ b)
  = failures_from w before a ++ failures_from w (before ++ a) b.
Proof.
  induction a as [|ev a IH]; intros before b; simpl.
  - now rewrite app_nil_r.
  - rewrite IH, <- !app_assoc. reflexivity.
Qed.

Lemma failures_from_quiet w evs : forall before,
  Forall (fun ev => is_smtp ev = false) evs ->
  failures_from w before evs = [].
Proof.
  induction evs as [|ev evs IH]; intros before Hq; [reflexivity|].
  inversion Hq as [|? ? Hev Hrest]; subst. simpl.
  rewrite IH by assumption. now destruct ev.
Qed.

Lemma smtp_failed_listed w tr e :
  smtp_failed w tr e -> In e (failures_from w [] tr).
Proof.
  intros (before & op & rest & -> & Hop).
  rewrite failures_from_app. apply in_or_app. right. simpl.
  rewrite Hop. now left.
Qed.

Lemma filter_quiet (f : Event -> bool) evs :
  (forall ev, f ev = true -> is_smtp ev = true) ->
  Forall (fun ev => is_smtp ev = false) evs ->
  filter f evs = [].
Proof.
  intros Hf Hq. induction Hq as [|ev evs Hev _ IH]; simpl; [reflexivity|].
  destruct (f ev) eqn:E; [|exact IH].
  apply Hf in E. congruence.
Qed.

(** What one call of the mailer adds to the log: one connection, at most
    one submission, and an exception exactly when a relay call raised. *)
Lemma send_email_outcome cfg w subject body tr :
  exists evs,
    snd (send_email cfg w subject body tr) = tr ++ evs
    /\ hd_error evs = Some (EvSmtp (SmtpConnect "smtp.gmail.com" 587))
    /\ List.length (filter is_connect evs) = 1
    /\ List.length (filter is_sendmail evs) <= 1
    /\ match fst (send_email cfg w subject body tr) with
       | Ok _ => failures_from w tr evs = []
       | Raise e => failures_from w tr evs = [e]
       end.
Proof.
  unfold send_email, try_except, bind, smtp, print, emit, raise.
  repeat
    match goal with
    | |- context [w_smtp w ?t ?op] =>
        let E := fresh "E" in destruct (w_smtp w t op) eqn:E
    end;
  (eexists; split;
   [ cbn [snd]; repeat rewrite <- app_assoc; reflexivity
   | cbn [fst app filter is_connect is_sendmail List.length failures_from
          hd_error];
     repeat match goal with
            | H : w_smtp _ _ _ = _ |- _ => rewrite H; clear H
            end;
     repeat split; auto ]).
Qed.


Lemma emits_utcnow w : emits off_relay (utcnow w).
Proof. intros tr. exists [EvClockUtc]. simpl. repeat constructor. Qed.

Lemma emits_now w : emits off_relay (now w).
Proof. intros tr. exists [EvClockLocal]. simpl. repeat constructor. Qed.

Lemma emits_feedparser_parse w url : emits off_relay (feedparser_parse w url).
Proof. intros tr. exists [EvFetch url]. simpl. repeat constructor. Qed.

Lemma emits_print args : emits off_relay (print args).
Proof. apply emits_emit. reflexivity. Qed.

Lemma emits_is_category_allowed cfg entry :
  emits off_relay (is_category_allowed cfg entry).
Proof.
  unfold is_category_allowed. destruct (negb _); [apply emits_ret|].
  apply emits_try_except; [|intros; apply emits_ret].
  apply emits_bind; [apply emits_getattr|]. intros tags. apply emits_ret.
Qed.

Lemma emits_search_entry cfg start_date group_name kw matched entry :
  emits off_relay (search_entry cfg start_date group_name kw matched entry).
Proof.
  unfold search_entry.
  apply emits_bind; [apply emits_getattr|]. intros raw.
  apply emits_bind.
  { destruct (str_ge _ _); [apply emits_is_category_allowed | apply emits_ret]. }
  intros [|]; [|apply emits_ret].
  apply emits_bind; [apply emits_getattr|]. intros raw_title.
  apply emits_bind; [apply emits_getattr|]. intros raw_summary.
  destruct (_ || _); [|apply emits_ret].
  apply emits_bind; [apply emits_getattr|]. intros people.
  apply emits_bind; [apply emits_map_M; intros; apply emits_getattr|].
  intros names.
  apply emits_bind; [apply emits_getattr|]. intros link'. apply emits_ret.
Qed.

Lemma emits_search_keyword cfg w start_date group_name matched kw :
  emits off_relay (search_keyword cfg w start_date group_name matched kw).
Proof.
  unfold search_keyword.
  apply emits_bind; [apply emits_print|]. intros _.
  apply emits_bind; [apply emits_feedparser_parse|]. intros entries.
  apply emits_for_each. intros. apply emits_search_entry.
Qed.

Lemma emits_search_group cfg w group_name keywords :
  emits off_relay (search_group cfg w group_name keywords).
Proof.
  unfold search_group, get_start_date_str.
  apply emits_bind.
  { apply emits_bind; [apply emits_utcnow|]. intros. apply emits_ret. }
  intros start_date. apply emits_for_each. intros.
  apply emits_search_keyword.
Qed.

Lemma emits_search_all cfg w : emits off_relay (search_all cfg w).
Proof.
  unfold search_all. apply emits_for_each.
  intros [all_grouped total] [group_name kw_list]. unfold main_group.
  apply emits_bind; [apply emits_search_group|]. intros. apply emits_ret.
Qed.

Lemma emits_send_email cfg w subject body :
  emits (fun _ => True) (send_email cfg w subject body).
Proof.
  intros tr. destruct (send_email_outcome cfg w subject body tr) as [evs [E _]].
  exists evs. split; [exact E|]. apply Forall_forall. auto.
Qed.

Lemma starts_with_nil {A} (c : M A) :
  emits (fun _ => True) c -> starts_with [] c.
Proof. intros Hc tr. destruct (Hc tr) as [evs [E _]]. now exists evs. Qed.

Lemma starts_with_bind {A B} evs (c : M A) (k : A -> M B) :
  starts_with evs c -> (forall a, emits (fun _ => True) (k a)) ->
  starts_with evs (bind c k).
Proof.
  intros Hc Hk tr. unfold bind. destruct (Hc tr) as [rest E].
  destruct (c tr) as [[a|e] tr1]; simpl in E; subst tr1.
  - destruct (Hk a (tr ++ evs ++ rest)) as [more [E' _]].
    exists (rest ++ more). rewrite E'. now rewrite <- !app_assoc.
  - now exists rest.
Qed.

Lemma starts_with_step {A B} evs1 evs2 (c : M A) (k : A -> M B) :
  (forall tr, exists a, c tr = (Ok a, tr ++ evs1)) ->
  (forall a, starts_with evs2 (k a)) ->
  starts_with (evs1 ++ evs2) (bind c k).
Proof.
  intros Hc Hk tr. unfold bind. destruct (Hc tr) as [a ->].
  destruct (Hk a (tr ++ evs1)) as [rest E].
  exists rest. rewrite E. now rewrite <- !app_assoc.
Qed.

Lemma emits_anything {A} (c : M A) :
  emits off_relay c -> emits (fun _ => True) c.
Proof. apply emits_impl. auto. Qed.


Lemma nonempty_groups_app (a b : GroupedResults) :
  nonempty_groups (a ++ b) = nonempty_groups a ++ nonempty_groups b.
Proof. apply filter_app. Qed.

(** The counter of the search loop counts the groups found non-empty. *)
Lemma search_all_count cfg w groups : forall acc k tr g n tr1,
  PyDict.wf groups ->
  (forall key, In key (PyDict.keys groups) -> ~ In key (PyDict.keys acc)) ->
  k = List.length (nonempty_groups acc) ->
  for_each groups (main_group cfg w) (acc, k) tr = (Ok (g, n), tr1) ->
  n = List.length (nonempty_groups g)
  /\ PyDict.keys g = PyDict.keys acc ++ PyDict.keys groups.
Proof.
  unfold PyDict.wf.
  induction groups as [|[group_name kw_list] groups IH];
    intros acc k tr g n tr1 Hwf Hfresh Hk Hrun.
  - simpl in Hrun. inversion Hrun; subst. now rewrite app_nil_r.
  - inversion Hwf as [|? ? Hnotin Hwf']; subst.
    cbn [for_each] in Hrun. unfold bind at 1 in Hrun.
    unfold main_group in Hrun at 1. unfold bind at 1 in Hrun.
    destruct (search_group cfg w group_name kw_list tr) as [[results|e] tr2];
      [|discriminate].
    cbn [ret] in Hrun.
    assert (Hname : ~ In group_name (PyDict.keys acc))
      by (apply Hfresh; now left).
    rewrite dict_set_fresh in Hrun by assumption.
    apply IH in Hrun; try assumption.
    + destruct Hrun as [Hn Hkeys]. split; [exact Hn|].
      rewrite Hkeys. unfold PyDict.keys. rewrite map_app. simpl.
      now rewrite <- app_assoc.
    + intros key Hin Hacc. unfold PyDict.keys in Hacc.
      rewrite map_app in Hacc. apply in_app_or in Hacc.
      destruct Hacc as [Hacc|[<-|[]]].
      * apply (Hfresh key); [now right | exact Hacc].
      * now apply Hnotin.
    + rewrite nonempty_groups_app, length_app.
      destruct results; simpl; lia.
Qed.

(** C2, amended: when the search loop ends with GroupedResults [g] and
    counter [n], the message handed to the mailer has as subject the run
    date and the number of groups that are non-empty in [g], the results
    before deduplication, and as body the digest of the deduplicated
    [g]. *)
Theorem subject_counts_groups_found (cfg : Config) (w : World)
    (tr tr1 : Trace) (g : GroupedResults) (n : nat) :
  PyDict.wf (KEYWORD_GROUPS cfg) ->
  search_all cfg w (tr ++ [EvPrint [PStr "🔍 正在抓取 arXiv 论文..."]])
  = (Ok (g, n), tr1) ->
  n = List.length (nonempty_groups g)
  /\ PyDict.keys g = PyDict.keys (KEYWORD_GROUPS cfg)
  /\ main cfg w tr
     = send_email cfg w
         (subject_line (strftime_Ymd (w_now w tr1))
                       (List.length (nonempty_groups g)))
         (format_digest cfg (deduplicate_grouped_entries g))
         (tr1 ++ [EvClockLocal]).
Proof.
  intros Hwf Hrun.
  assert (Hcount := Hrun). unfold search_all in Hcount.
  apply search_all_count in Hcount; auto.
  destruct Hcount as [Hn Hkeys]. simpl in Hkeys.
  split; [exact Hn|]. split; [exact Hkeys|].
  unfold main, bind, print, emit, now. rewrite Hrun. now rewrite Hn.
Qed.

(** A run starts with the clock and the fetch for the first keyword of the
    first group. *)
Lemma main_starts_with_fetch cfg w group_name kw kws groups :
  KEYWORD_GROUPS cfg = (group_name, kw :: kws) :: groups ->
  starts_with
    [ EvPrint [PStr "🔍 正在抓取 arXiv 论文..."];
      EvClockUtc;
      EvPrint [PStr ("🔍 [" +++ group_name +++ "] Searching: " +++ kw)];
      EvFetch (search_url cfg kw) ]
    (main cfg w).
Proof.
  intros Hgroups.
  unfold main.
  apply (starts_with_step [_] [_; _; _]); [intros tr; now exists tt|].
  intros _. apply starts_with_bind.
  2:{ intros [all_grouped total].
      apply emits_bind; [apply emits_anything, emits_now|].
      intros today. apply emits_send_email. }
  unfold search_all. rewrite Hgroups. cbn [for_each].
  apply starts_with_bind.
  2:{ intros st. apply emits_anything.
      apply (emits_for_each off_relay).
      intros [all_grouped total] [name' kw_list]. unfold main_group.
      apply emits_bind; [apply emits_search_group|]. intros. apply emits_ret. }
  unfold main_group. apply starts_with_bind; [|intros; apply emits_ret].
  unfold search_group.
  apply (starts_with_step [_] [_; _]).
  { intros tr. eexists. reflexivity. }
  intros start_date. cbn [for_each].
  apply starts_with_bind.
  2:{ intros matched. apply emits_anything. apply emits_for_each.
      intros. apply emits_search_keyword. }
  unfold search_keyword.
  apply (starts_with_step [_] [_]); [intros tr; now exists tt|].
  intros _.
  rewrite <- (app_nil_r [EvFetch _]).
  apply starts_with_step.
  { intros tr. eexists. reflexivity. }
  intros entries. apply starts_with_nil, emits_anything.
  apply emits_for_each. intros. apply emits_search_entry.
Qed.

(** The relay call that raised [e] can be pointed at in the log. *)
Lemma failures_located w e todo : forall before,
  In e (failures_from w before todo) ->
  exists pre op rest,
    todo = pre ++ EvSmtp op :: rest /\ w_smtp w (before ++ pre) op = Some e.
Proof.
  induction todo as [|ev todo IH]; intros before Hin; [contradiction|].
  cbn [failures_from] in Hin. apply in_app_or in Hin.
  destruct Hin as [Hin|Hin].
  - destruct ev as [| | |op|]; try contradiction.
    destruct (w_smtp w before op) as [e'|] eqn:E; [|contradiction].
    destruct Hin as [->|[]].
    exists [], op, todo. split; [reflexivity|]. now rewrite app_nil_r.
  - destruct (IH _ Hin) as (pre & op & rest & -> & Hop).
    exists (ev :: pre), op, rest. split; [reflexivity|].
    now rewrite <- app_assoc in Hop.
Qed.

(** Every login the mailer makes carries the two values read from the
    environment, and it makes one once the connection, the handshakes and
    the encryption upgrade have succeeded. *)
Lemma send_email_login cfg w subject body tr :
  exists evs,
    snd (send_email cfg w subject body tr) = tr ++ evs
    /\ (forall user password,
          In (EvSmtp (SmtpLogin user password)) evs ->
          user = SENDER_EMAIL w /\ password = SENDER_PASSWORD w)
    /\ (failures_from w tr
          [ EvSmtp (SmtpConnect "smtp.gmail.com" 587);
            EvSmtp SmtpEhlo; EvSmtp SmtpStarttls; EvSmtp SmtpEhlo ] = [] ->
        In (EvSmtp (SmtpLogin (SENDER_EMAIL w) (SENDER_PASSWORD w))) evs).
Proof.
  unfold send_email, try_except, bind, smtp, print, emit, raise.
  repeat
    match goal with
    | |- context [w_smtp w ?t ?op] =>
        let E := fresh "E" in destruct (w_smtp w t op) eqn:E
    end;
  (eexists; split;
   [ cbn [snd]; repeat rewrite <- app_assoc; reflexivity |]);
  (split;
   [ intros user password Hin; cbn [app In] in Hin;
     repeat (destruct Hin as [Hin|Hin]; try discriminate Hin);
     try contradiction; inversion Hin; now split
   | cbn [app failures_from];
     repeat match goal with
            | H : w_smtp _ _ _ = _ |- _ => rewrite H; clear H
            end;
     intros Hnone; try discriminate Hnone; cbn [In]; tauto ]).
Qed.

(** C3, amended: the secrets are not checked at startup.  Whatever the
    process environment (either secret absent included), the search loop
    runs as it does with any other environment; a run with the script's
    configuration starts by asking the clock and fetching the feed for the
    first keyword; and when the search loop ends normally the run connects
    to the relay, every login it makes carries the two values of the
    environment as they are (None for an absent secret), it makes that
    login once the connection, the handshakes and the encryption upgrade
    have succeeded, and it fails exactly when a relay call raises, with
    the exception of that call; so it ends normally when none raises. *)
Theorem secrets_not_checked_at_startup (w : World)
    (env : string -> option string) :
  (forall cfg tr, search_all cfg (set_getenv w env) tr = search_all cfg w tr)
  /\ starts_with
       [ EvPrint [PStr "🔍 正在抓取 arXiv 论文..."];
         EvClockUtc;
         EvPrint [PStr "🔍 [Integrated Photonic Materials] Searching: SiN"];
         EvFetch (search_url default_config "SiN") ]
       (main default_config (set_getenv w env))
  /\ (forall cfg tr st tr1,
        search_all cfg (set_getenv w env)
                   (tr ++ [EvPrint [PStr "🔍 正在抓取 arXiv 论文..."]])
        = (Ok st, tr1) ->
        In (EvSmtp (SmtpConnect "smtp.gmail.com" 587))
           (snd (main cfg (set_getenv w env) tr)))
  /\ (forall cfg st tr1,
        search_all cfg (set_getenv w env)
                   [EvPrint [PStr "🔍 正在抓取 arXiv 论文..."]]
        = (Ok st, tr1) ->
        (forall user password,
           In (EvSmtp (SmtpLogin user password))
              (snd (main cfg (set_getenv w env) [])) ->
           user = env "SENDER_EMAIL" /\ password = env "SENDER_PASSWORD")
        /\ (failures_from (set_getenv w env) (tr1 ++ [EvClockLocal])
              [ EvSmtp (SmtpConnect "smtp.gmail.com" 587);
                EvSmtp SmtpEhlo; EvSmtp SmtpStarttls; EvSmtp SmtpEhlo ] = [] ->
            In (EvSmtp (SmtpLogin (env "SENDER_EMAIL")
                                  (env "SENDER_PASSWORD")))
               (snd (main cfg (set_getenv w env) [])))
        /\ (forall e,
              fst (main cfg (set_getenv w env) []) = Raise e
              <-> smtp_failed (set_getenv w env)
                    (snd (main cfg (set_getenv w env) [])) e)
        /\ ((forall e, ~ smtp_failed (set_getenv w env)
                         (snd (main cfg (set_getenv w env) [])) e) ->
            fst (main cfg (set_getenv w env) []) = Ok tt
            /\ exit_code (fst (main cfg (set_getenv w env) [])) = 0)).
Proof.
  split; [reflexivity|]. split; [|split].
  - now apply (main_starts_with_fetch default_config (set_getenv w env)
                 "Integrated Photonic Materials" "SiN" _ _ eq_refl).
  - intros cfg tr [g n] tr1 Hrun.
    unfold main, bind, print, emit, now. rewrite Hrun. cbn [fst snd].
    destruct (send_email_outcome cfg (set_getenv w env)
                (subject_line (strftime_Ymd (w_now (set_getenv w env) tr1)) n)
                (format_digest cfg (deduplicate_grouped_entries g))
                (tr1 ++ [EvClockLocal])) as [evs (E & Hhd & _)].
    rewrite E.
    apply in_or_app. right.
    destruct evs as [|ev evs]; [discriminate|].
    inversion Hhd; subst. now left.
  - intros cfg [g n] tr1 Hrun.
    set (w' := set_getenv w env) in *.
    destruct (emits_search_all cfg w'
                [EvPrint [PStr "🔍 正在抓取 arXiv 论文..."]]) as [sevs [Etr Hq]].
    rewrite Hrun in Etr. cbn [snd] in Etr.
    assert (Hstart : Forall (fun ev => is_smtp ev = false)
                            (tr1 ++ [EvClockLocal])).
    { subst tr1. apply Forall_app. split; [|repeat constructor].
      apply Forall_app. split; [repeat constructor | exact Hq]. }
    assert (Hmain : main cfg w' []
      = send_email cfg w' (subject_line (strftime_Ymd (w_now w' tr1)) n)
          (format_digest cfg (deduplicate_grouped_entries g))
          (tr1 ++ [EvClockLocal])).
    { unfold main, bind, print, emit, now.
      change ([] ++ [EvPrint [PStr "🔍 正在抓取 arXiv 论文..."]])
        with [EvPrint [PStr "🔍 正在抓取 arXiv 论文..."]].
      now rewrite Hrun. }
    rewrite Hmain.
    destruct (send_email_login cfg w'
                (subject_line (strftime_Ymd (w_now w' tr1)) n)
                (format_digest cfg (deduplicate_grouped_entries g))
                (tr1 ++ [EvClockLocal])) as [evs (E & Hcarry & Hlogin)].
    destruct (send_email_outcome cfg w'
                (subject_line (strftime_Ymd (w_now w' tr1)) n)
                (format_digest cfg (deduplicate_grouped_entries g))
                (tr1 ++ [EvClockLocal])) as [evs' (E' & _ & _ & _ & Hres)].
    rewrite E in E'. apply app_inv_head in E'. subst evs'.
    rewrite E.
    assert (Hiff : forall e,
      fst (send_email cfg w' (subject_line (strftime_Ymd (w_now w' tr1)) n)
             (format_digest cfg (deduplicate_grouped_entries g))
             (tr1 ++ [EvClockLocal])) = Raise e
      <-> smtp_failed w' ((tr1 ++ [EvClockLocal]) ++ evs) e).
    { intros e. split.
      - intros Hraise. rewrite Hraise in Hres.
        assert (Hin : In e (failures_from w' (tr1 ++ [EvClockLocal]) evs))
          by (rewrite Hres; now left).
        apply failures_located in Hin.
        destruct Hin as (pre & op & rest & -> & Hop).
        exists ((tr1 ++ [EvClockLocal]) ++ pre), op, rest.
        split; [repeat rewrite <- app_assoc; reflexivity | exact Hop].
      - intros Hfail. apply smtp_failed_listed in Hfail.
        rewrite failures_from_app in Hfail.
        rewrite (failures_from_quiet w' _ [] Hstart) in Hfail.
        cbn [app] in Hfail.
        destruct (fst (send_email cfg w' _ _ (tr1 ++ [EvClockLocal])))
          as [u|e'].
        + rewrite Hres in Hfail. contradiction.
        + rewrite Hres in Hfail. destruct Hfail as [->|[]]. reflexivity. }
    split; [|split; [|split]].
    + intros user password Hin. apply in_app_or in Hin.
      destruct Hin as [Hin|Hin]; [|exact (Hcarry user password Hin)].
      rewrite Forall_forall in Hstart. apply Hstart in Hin. discriminate Hin.
    + intros Hnone. apply in_or_app. right. exact (Hlogin Hnone).
    + exact Hiff.
    + intros Hnofail.
      destruct (fst (send_email cfg w' _ _ (tr1 ++ [EvClockLocal])))
        as [[]|e] eqn:Hfst.
      * now split.
      * exfalso. apply (Hnofail e). apply Hiff. reflexivity.
Qed.



(** ** Further properties of the deduplicator *)

Lemma keep_unseen_distinct l : forall seen,
  NoDup (map title_key l) ->
  (forall k, In k (map title_key l) -> set_in k seen = false) ->
  keep_unseen seen l = l /\ mark_seen seen l = rev (map title_key l) ++ seen.
Proof.
  induction l as [|p l IH]; intros seen Hnd Hnew; [now split|].
  simpl in *. inversion Hnd as [|? ? Hp Hnd']; subst.
  rewrite (Hnew (title_key p)) by now left.
  destruct (IH (set_add (title_key p) seen) Hnd') as [Hkeep Hmark].
  - intros k Hk. simpl.
    destruct (String.eqb_spec k (title_key p)) as [->|_]; [contradiction|].
    apply Hnew. now right.
  - rewrite Hkeep, Hmark. split; [reflexivity|].
    unfold set_add. now rewrite <- app_assoc.
Qed.

Lemma set_in_false k s : ~ In k s -> set_in k s = false.
Proof.
  intros H. destruct (set_in k s) eqn:E; [|reflexivity].
  apply In_set_in in E. contradiction.
Qed.

Lemma dedup_from_distinct g : forall seen,
  NoDup (map title_key (flatten g)) ->
  (forall k, In k (map title_key (flatten g)) -> set_in k seen = false) ->
  dedup_from seen g = g.
Proof.
  unfold flatten.
  induction g as [|[name ps] g IH]; intros seen Hnd Hnew; [reflexivity|].
  simpl in *. rewrite map_app in Hnd, Hnew.
  pose proof (NoDup_app_remove_r _ _ Hnd) as Hps.
  pose proof (NoDup_app_remove_l _ _ Hnd) as Hrest.
  destruct (keep_unseen_distinct ps seen Hps) as [Hkeep Hmark].
  { intros k Hk. apply Hnew. apply in_or_app. now left. }
  rewrite Hkeep, Hmark. f_equal. apply IH; [exact Hrest|].
  intros k Hk. rewrite set_in_app.
  rewrite (Hnew k) by (apply in_or_app; now right). rewrite orb_false_r.
  apply set_in_false. rewrite <- in_rev. intros Hin.
  revert Hnd Hin Hk. clear. intros Hnd Hin Hk.
  induction (map title_key ps) as [|x xs IHx]; [contradiction|].
  simpl in Hnd. inversion Hnd as [|? ? Hx Hnd']; subst.
  destruct Hin as [->|Hin].
  - apply Hx. apply in_or_app. now right.
  - now apply IHx.
Qed.

(** X1: a GroupedResults whose papers all have different normalized titles
    comes back from the deduplicator as it went in. *)
Theorem dedup_keeps_distinct (g : GroupedResults) :
  PyDict.wf g ->
  NoDup (map title_key (flatten g)) ->
  deduplicate_grouped_entries g = g.
Proof.
  intros Hwf Hnd. rewrite (dedup_reading g Hwf).
  apply dedup_from_distinct; [exact Hnd | reflexivity].
Qed.

Lemma keep_unseen_shorter l : forall seen,
  List.length (keep_unseen seen l) <= List.length l.
Proof.
  induction l as [|p l IH]; intros seen; simpl; [lia|].
  destruct (set_in (title_key p) seen); simpl.
  - specialize (IH seen). lia.
  - specialize (IH (set_add (title_key p) seen)). lia.
Qed.

Lemma keep_unseen_sub l : forall seen p,
  In p (keep_unseen seen l) -> In p l.
Proof.
  induction l as [|q l IH]; intros seen p; simpl; [tauto|].
  destruct (set_in (title_key q) seen); simpl.
  - intros H. right. eapply IH; eauto.
  - intros [->|H]; [now left|]. right. eapply IH; eauto.
Qed.

(** X2: the deduplicator neither loses nor invents a normalized title, it
    never returns more papers than it got, and every paper it keeps in a
    group is a paper of that group in the input. *)
Theorem dedup_same_titles (g : GroupedResults) :
  PyDict.wf g ->
  (forall t, In t (map title_key (flatten (deduplicate_grouped_entries g)))
             <-> In t (map title_key (flatten g)))
  /\ List.length (flatten (deduplicate_grouped_entries g))
     <= List.length (flatten g)
  /\ (forall i name kept p,
        nth_error (deduplicate_grouped_entries g) i = Some (name, kept) ->
        In p kept ->
        exists ps, nth_error g i = Some (name, ps) /\ In p ps).
Proof.
  intros Hwf. rewrite (dedup_reading g Hwf), flatten_dedup_from.
  split; [|split].
  - intros t. split.
    + intros H. now apply keep_unseen_keys in H.
    + intros H. now apply keep_unseen_retains.
  - apply keep_unseen_shorter.
  - intros i name kept p Hnth Hin.
    destruct (nth_error g i) as [[name0 ps]|] eqn:E.
    + rewrite (nth_error_dedup_from g set_empty i name0 ps E) in Hnth.
      inversion Hnth; subst. exists ps. split; [reflexivity|].
      eapply keep_unseen_sub; eauto.
    + apply nth_error_None in E.
      assert (Hlen : List.length (dedup_from set_empty g) = List.length g).
      { rewrite <- (length_map fst (dedup_from set_empty g)).
        rewrite <- (length_map fst g).
        f_equal. apply keys_dedup_from. }
      assert (Hsome : nth_error (dedup_from set_empty g) i <> None)
        by congruence.
      apply nth_error_Some in Hsome. lia.
Qed.

(** ** Further properties of the formatter *)






(** ** Further properties of the search *)

Lemma has_char_replaced old new s :
  Ascii.eqb new old = false -> has_char old (str_replace old new s) = false.
Proof.
  intros Hne. induction s as [|c s IH]; [reflexivity|].
  simpl. rewrite IH, orb_false_r.
  destruct (Ascii.eqb c old) eqn:E; [exact Hne | exact E].
Qed.

Lemma for_each_invariant {A S} (I : S -> Prop) (body : S -> A -> M S) l :
  (forall s a tr s' tr',
     In a l -> I s -> body s a tr = (Ok s', tr') -> I s') ->
  forall s tr s' tr',
    I s -> for_each l body s tr = (Ok s', tr') -> I s'.
Proof.
  induction l as [|a l IH]; intros Hbody s tr s' tr' Hs Hrun.
  - simpl in Hrun. now inversion Hrun; subst.
  - cbn [for_each] in Hrun. unfold bind in Hrun.
    destruct (body s a tr) as [[s1|e] tr1] eqn:E; [|discriminate].
    assert (Hs1 : I s1) by (eapply (Hbody s a); eauto; now left).
    refine (IH _ s1 tr1 s' tr' Hs1 Hrun).
    intros s0 a0 tr0 s0' tr0' Hin. apply Hbody. now right.
Qed.

Lemma search_entry_found cfg start_date group_name kw keywords
    matched entry tr matched' tr' :
  In kw keywords ->
  Forall (found_under group_name keywords) matched ->
  search_entry cfg start_date group_name kw matched entry tr
  = (Ok matched', tr') ->
  Forall (found_under group_name keywords) matched'.
Proof.
  intros Hkw Hall Hrun. unfold search_entry, bind, getattr, ret, raise in Hrun.
  destruct (e_published entry) as [raw|]; [|discriminate].
  destruct ((if str_ge (split_head "T" raw) start_date
             then is_category_allowed cfg entry
             else fun tr0 => (Ok false, tr0)) tr) as [[[|]|e] tr1];
    [| now inversion Hrun; subst | discriminate].
  destruct (e_title entry) as [raw_title|]; [|discriminate].
  destruct (e_summary entry) as [raw_summary|]; [|discriminate].
  destruct (keyword_matched _ kw || keyword_matched _ kw) eqn:Hmatch;
    [| now inversion Hrun; subst].
  destruct (e_authors entry) as [people|]; [|discriminate].
  destruct (map_M _ people tr1) as [[names|e] tr2]; [|discriminate].
  destruct (e_link entry) as [link'|]; [|discriminate].
  inversion Hrun; subst. apply Forall_app. split; [exact Hall|].
  constructor; [|constructor].
  unfold found_under. cbn [group keyword title summary].
  repeat split; try assumption; now apply has_char_replaced.
Qed.

(** X4: every paper the search of a group returns carries that group's
    name and one of its keywords, holds that keyword in its title or its
    abstract (case-insensitively), and has no line break in its title or
    abstract. *)
Theorem search_group_results_match (cfg : Config) (w : World)
    (group_name : string) (keywords : list string)
    (tr tr' : Trace) (results : list Paper) :
  search_group cfg w group_name keywords tr = (Ok results, tr') ->
  Forall (found_under group_name keywords) results.
Proof.
  unfold search_group, bind, get_start_date_str, utcnow, ret.
  cbn beta iota. intros Hrun.
  eapply (for_each_invariant (Forall (found_under group_name keywords)));
    [| constructor | exact Hrun].
  intros matched kw tr1 matched1 tr2 Hkw Hall Hstep.
  unfold search_keyword, bind, print, emit, feedparser_parse in Hstep.
  cbn beta iota in Hstep.
  eapply (for_each_invariant (Forall (found_under group_name keywords)));
    [| exact Hall | exact Hstep].
  intros m entry tr3 m' tr4 _ Hm Hentry.
  eapply search_entry_found; eauto.
Qed.

Lemma cat_in_collected cat tags : forall categories,
  cat_in cat (fold_left collect_term tags categories) = true
  <-> cat_in cat categories = true \/ Exists (tag_names cat) tags.
Proof.
  unfold tag_names.
  induction tags as [|tag tags IH]; intros categories; cbn [fold_left].
  - split; [now left|]. intros [H|H]; [exact H | inversion H].
  - rewrite IH, Exists_cons. unfold cat_in.
    destruct tag as [[[s|]|]|s|]; cbn [collect_term];
      try rewrite existsb_app; cbn [existsb]; rewrite ?orb_false_r.
    + rewrite orb_true_iff.
      destruct (String.eqb_spec cat s) as [->|Hne].
      * split; [intros _; right; left; now right | intros _; left; now right].
      * split.
        -- intros [[H|H]|H]; [now left | discriminate | right; now right].
        -- intros [H|[[H|H]|H]];
             [left; now left | discriminate | | now right].
           inversion H; congruence.
    + split; [intros [H|H]; [now left | right; now right]|].
      intros [H|[[H|H]|H]]; [now left | discriminate | discriminate | now right].
    + split; [intros [H|H]; [now left | right; now right]|].
      intros [H|[[H|H]|H]]; [now left | discriminate | discriminate | now right].
    + rewrite orb_true_iff.
      destruct (String.eqb_spec cat s) as [->|Hne].
      * split; [intros _; right; left; now left | intros _; left; now right].
      * split.
        -- intros [[H|H]|H]; [now left | discriminate | right; now right].
        -- intros [H|[[H|H]|H]];
             [left; now left | | discriminate | now right].
           inversion H; congruence.
    + split; [intros [H|H]; [now left | right; now right]|].
      intros [H|[[H|H]|H]]; [now left | discriminate | discriminate | now right].
Qed.

(** X5: under strict-category mode an entry with a list of tags passes the
    category check exactly when one of its tags carries, as a bare string
    or as the text under ['term'], one of the allowed categories. *)
Theorem strict_mode_needs_allowed_tag (cfg : Config) (entry : Entry)
    (tags : list Tag) (tr : Trace) :
  STRICT_CATEGORY_MODE cfg = true ->
  e_tags entry = Some tags ->
  exists b,
    is_category_allowed cfg entry tr = (Ok b, tr)
    /\ (b = true
        <-> exists cat,
              In cat (CATEGORIES cfg) /\ Exists (tag_names cat) tags).
Proof.
  intros Hon Htags. unfold is_category_allowed. rewrite Hon. cbn [negb].
  unfold try_except, bind, getattr, ret. rewrite Htags.
  eexists. split; [reflexivity|].
  rewrite existsb_exists. split.
  - intros [cat [Hin Hcat]]. exists cat. split; [exact Hin|].
    apply cat_in_collected in Hcat. destruct Hcat as [H|H]; [discriminate|exact H].
  - intros [cat [Hin Hex]]. exists cat. split; [exact Hin|].
    apply cat_in_collected. now right.
Qed.

Lemma prefix_split p s :
  String.prefix p s = true <-> exists post, s = p +++ post.
Proof.
  revert s. induction p as [|c p IH]; intros s.
  - split; [intros _; now exists s | intros _; now destruct s].
  - destruct s as [|c' s]; simpl.
    + split; [discriminate | intros [post H]; discriminate].
    + destruct (Ascii.ascii_dec c c') as [->|Hne].
      * rewrite IH. split.
        -- intros [post ->]. now exists post.
        -- intros [post H]. inversion H. now exists post.
      * split; [discriminate|]. intros [post H]. inversion H. congruence.
Qed.

Lemma str_in_split needle hay :
  str_in needle hay = true <-> exists pre post, hay = pre +++ needle +++ post.
Proof.
  induction hay as [|c hay IH].
  - cbn [str_in]. rewrite prefix_split. split.
    + intros [post H]. now exists "", post.
    + intros [pre [post H]]. destruct pre; [now exists post | discriminate].
  - cbn [str_in]. rewrite orb_true_iff, prefix_split, IH. split.
    + intros [[post H]|[pre [post H]]].
      * now exists "", post.
      * exists (String c pre), post. simpl. now rewrite H.
    + intros [pre [post H]]. destruct pre as [|c' pre].
      * left. now exists post.
      * right. simpl in H. inversion H. now exists pre, post.
Qed.

(** X6: a keyword matches a text exactly when the lower-cased keyword
    occurs as a contiguous part of the lower-cased text; so a keyword that
    lower-cases to the empty text matches every text. *)
Theorem keyword_matched_is_substring (text kw : string) :
  (keyword_matched text kw = true
   <-> exists pre post, str_lower text = pre +++ str_lower kw +++ post)
  /\ (str_lower kw = "" -> keyword_matched text kw = true).
Proof.
  unfold keyword_matched. split; [apply str_in_split|].
  intros Hempty. apply str_in_split. rewrite Hempty.
  now exists "", (str_lower text).
Qed.


(** Ten-character dates compare as text exactly as year, month and day
    compare in turn. *)
Lemma strftime_compare (a b : Date) :
  date_ok a -> date_ok b ->
  String.compare (strftime_Ymd a) (strftime_Ymd b)
  = match Nat.compare (year a) (year b) with
    | Eq => match Nat.compare (month a) (month b) with
            | Eq => Nat.compare (day a) (day b)
            | r => r
            end
    | r => r
    end.
Proof.
  unfold date_ok, strftime_Ymd.
  intros (Hya & Hma & Hda) (Hyb & Hmb & Hdb).
  rewrite compare_append by (now rewrite !length_zero_pad).
  rewrite compare_zero_pad by lia.
  rewrite (compare_append "-" "-") by reflexivity.
  change (String.compare "-" "-") with Eq. cbv iota.
  rewrite compare_append by (now rewrite !length_zero_pad).
  rewrite compare_zero_pad by (simpl; lia).
  rewrite (compare_append "-" "-") by reflexivity.
  change (String.compare "-" "-") with Eq. cbv iota.
  rewrite compare_zero_pad by (simpl; lia).
  destruct (year a ?= year b); [|reflexivity|reflexivity].
  destruct (month a ?= month b); reflexivity.
Qed.

Lemma str_ge_recent (c d : Date) (rest : string) :
  date_ok c -> date_ok d -> ~ date_lt d c ->
  str_ge (split_head "T" (strftime_Ymd d +++ rest)) (strftime_Ymd c) = true.
Proof.
  intros Hc Hd Hnlt. rewrite split_head_strftime.
  unfold str_ge, String.leb.
  rewrite <- (append_empty (strftime_Ymd c)).
  rewrite compare_append by (now rewrite !length_strftime).
  rewrite strftime_compare by assumption.
  unfold date_lt in Hnlt.
  destruct (Nat.compare_spec (year c) (year d)) as [Ey|Ly|Gy];
    [| reflexivity | exfalso; apply Hnlt; now left].
  destruct (Nat.compare_spec (month c) (month d)) as [Em|Lm|Gm];
    [| reflexivity | exfalso; apply Hnlt; right; left; now split].
  destruct (Nat.compare_spec (day c) (day d)) as [Ed|Ld|Gd];
    [| reflexivity | exfalso; apply Hnlt; right; right; now repeat split].
  now destruct (split_head "T" rest).
Qed.

Lemma map_M_getattr_present name (values : list string) tr :
  map_M (getattr name) (map Some values) tr = (Ok values, tr).
Proof.
  revert tr. induction values as [|v values IH]; intros tr; [reflexivity|].
  cbn [map map_M]. unfold bind at 1. cbn [getattr ret].
  unfold bind at 1. now rewrite IH.
Qed.

(** X7: an entry with all its fields, whose published timestamp starts with
    a date on or after the cutoff date, which passes the category check and
    holds the keyword in its cleaned title or abstract, is appended to the
    matches as one paper: cleaned title and abstract, the author names
    joined by a comma and a blank, the link, the keyword and the group. *)
Theorem recent_entry_included (cfg : Config) (c d : Date) (entry : Entry)
    (rest raw_title raw_summary link' group_name kw : string)
    (names : list string) (matched : list Paper) (tr : Trace) :
  date_ok c -> date_ok d -> ~ date_lt d c ->
  e_published entry = Some (strftime_Ymd d +++ rest) ->
  e_title entry = Some raw_title ->
  e_summary entry = Some raw_summary ->
  e_authors entry = Some (map Some names) ->
  e_link entry = Some link' ->
  is_category_allowed cfg entry tr = (Ok true, tr) ->
  keyword_matched (str_replace (ascii_of_nat 10) " " (str_strip raw_title)) kw
  || keyword_matched (str_replace (ascii_of_nat 10) " " (str_strip raw_summary))
                     kw = true ->
  search_entry cfg (strftime_Ymd c) group_name kw matched entry tr
  = (Ok (matched
         ++ [{| title := str_replace (ascii_of_nat 10) " " (str_strip raw_title);
                authors := String.concat ", " names;
                summary :=
                  str_replace (ascii_of_nat 10) " " (str_strip raw_summary);
                link := link';
                keyword := kw;
                group := group_name |}]),
     tr).
Proof.
  intros Hc Hd Hnlt Hpub Htitle Hsummary Hauthors Hlink Hcat Hmatch.
  unfold search_entry. rewrite Hpub, Htitle, Hsummary, Hauthors, Hlink.
  unfold bind at 1. cbn [getattr ret].
  rewrite str_ge_recent by assumption.
  unfold bind at 1. rewrite Hcat.
  unfold bind at 1. cbn [ret]. unfold bind at 1. cbn [ret].
  rewrite Hmatch.
  unfold bind at 1. cbn [ret]. unfold bind at 1.
  rewrite map_M_getattr_present. reflexivity.
Qed.


(** ** Further properties of the main flow and of the mailer *)

Lemma fetched_app a b : fetched (a ++ b) = fetched a ++ fetched b.
Proof. unfold fetched. apply flat_map_app. Qed.

Lemma emits_nothing {A} (c : M A) :
  emits (fun _ => False) c -> forall tr, snd (c tr) = tr.
Proof.
  intros Hc tr. destruct (Hc tr) as [evs [E Hnone]]. rewrite E.
  destruct evs as [|ev evs]; [apply app_nil_r|].
  inversion Hnone as [|? ? []].
Qed.

(** The entry filter writes nothing to the log. *)
Lemma search_entry_silent cfg start_date group_name kw matched entry tr :
  snd (search_entry cfg start_date group_name kw matched entry tr) = tr.
Proof.
  apply emits_nothing. unfold search_entry.
  apply emits_bind; [apply emits_getattr|]. intros raw.
  apply emits_bind.
  { destruct (str_ge _ _); [|apply emits_ret].
    intros tr0. destruct (is_category_allowed_total cfg entry tr0) as [b E].
    exists []. rewrite E. simpl. now rewrite app_nil_r. }
  intros [|]; [|apply emits_ret].
  apply emits_bind; [apply emits_getattr|]. intros raw_title.
  apply emits_bind; [apply emits_getattr|]. intros raw_summary.
  destruct (_ || _); [|apply emits_ret].
  apply emits_bind; [apply emits_getattr|]. intros people.
  apply emits_bind; [apply emits_map_M; intros; apply emits_getattr|].
  intros names.
  apply emits_bind; [apply emits_getattr|]. intros link'. apply emits_ret.
Qed.

Lemma search_entries_silent cfg start_date group_name kw entries :
  forall matched tr,
  snd (for_each entries (search_entry cfg start_date group_name kw) matched tr)
  = tr.
Proof.
  induction entries as [|entry entries IH]; intros matched tr; [reflexivity|].
  cbn [for_each]. unfold bind.
  pose proof (search_entry_silent cfg start_date group_name kw matched entry tr)
    as Hs.
  destruct (search_entry cfg start_date group_name kw matched entry tr)
    as [[m|e] tr1]; simpl in Hs; subst tr1; [apply IH | reflexivity].
Qed.

(** The search for one keyword logs its announcement and its one query. *)
Lemma search_keyword_log cfg w start_date group_name matched kw tr :
  snd (search_keyword cfg w start_date group_name matched kw tr)
  = tr ++ [EvPrint [PStr ("🔍 [" +++ group_name +++ "] Searching: " +++ kw)];
           EvFetch (search_url cfg kw)].
Proof.
  unfold search_keyword, bind, print, emit, feedparser_parse. cbn beta iota.
  rewrite search_entries_silent. now rewrite <- app_assoc.
Qed.

Lemma search_keywords_fetch cfg w start_date group_name keywords :
  forall matched tr,
  exists evs rest,
    snd (for_each keywords (search_keyword cfg w start_date group_name)
                  matched tr) = tr ++ evs
    /\ fetched evs ++ rest = map (search_url cfg) keywords
    /\ (forall r, fst (for_each keywords
                         (search_keyword cfg w start_date group_name)
                         matched tr) = Ok r -> rest = []).
Proof.
  induction keywords as [|kw keywords IH]; intros matched tr.
  - exists [], []. simpl. rewrite app_nil_r. auto.
  - cbn [for_each]. unfold bind.
    pose proof (search_keyword_log cfg w start_date group_name matched kw tr)
      as Hlog.
    destruct (search_keyword cfg w start_date group_name matched kw tr)
      as [[m|e] tr1]; cbn [snd] in Hlog; subst tr1.
    + destruct (IH m (tr ++ [EvPrint [PStr ("🔍 [" +++ group_name
                                             +++ "] Searching: " +++ kw)];
                             EvFetch (search_url cfg kw)]))
        as (evs & rest & E & Hf & Hok).
      eexists (_ :: _ :: evs), rest. rewrite E.
      split; [now rewrite <- app_assoc|]. split; [|exact Hok].
      cbn [map]. rewrite <- Hf. reflexivity.
    + eexists [_; _], (map (search_url cfg) keywords).
      split; [reflexivity|]. split; [reflexivity|]. intros r H. discriminate.
Qed.

Lemma search_group_fetch cfg w group_name keywords tr :
  exists evs rest,
    snd (search_group cfg w group_name keywords tr) = tr ++ evs
    /\ fetched evs ++ rest = map (search_url cfg) keywords
    /\ (forall r, fst (search_group cfg w group_name keywords tr) = Ok r ->
                  rest = []).
Proof.
  assert (Hread : search_group cfg w group_name keywords tr
                  = for_each keywords
                      (search_keyword cfg w
                         (strftime_Ymd (minus_days (w_utcnow w tr)
                                                   (DAYS_BACK cfg)))
                         group_name)
                      [] (tr ++ [EvClockUtc])) by reflexivity.
  rewrite Hread.
  destruct (search_keywords_fetch cfg w
              (strftime_Ymd (minus_days (w_utcnow w tr) (DAYS_BACK cfg)))
              group_name keywords [] (tr ++ [EvClockUtc]))
    as (evs & rest & E & Hf & Hok).
  exists (EvClockUtc :: evs), rest. rewrite E.
  split; [now rewrite <- app_assoc|]. split; [exact Hf | exact Hok].
Qed.

Lemma search_groups_fetch cfg w groups : forall st tr,
  exists evs rest,
    snd (for_each groups (main_group cfg w) st tr) = tr ++ evs
    /\ fetched evs ++ rest = map (search_url cfg) (flat_map snd groups)
    /\ (forall r, fst (for_each groups (main_group cfg w) st tr) = Ok r ->
                  rest = []).
Proof.
  induction groups as [|[group_name kw_list] groups IH];
    intros [all_grouped total] tr.
  - exists [], []. simpl. rewrite app_nil_r. auto.
  - assert (Hstep :
      for_each ((group_name, kw_list) :: groups) (main_group cfg w)
               (all_grouped, total) tr
      = match search_group cfg w group_name kw_list tr with
        | (Ok results, tr1) =>
            for_each groups (main_group cfg w)
                     (PyDict.set all_grouped group_name results,
                      if truthy results then total + 1 else total) tr1
        | (Raise e, tr1) => (Raise e, tr1)
        end).
    { cbn [for_each]. unfold bind at 1. unfold main_group at 1.
      unfold bind at 1.
      now destruct (search_group cfg w group_name kw_list tr) as [[?|?] ?]. }
    rewrite Hstep. clear Hstep. cbn [flat_map snd].
    destruct (search_group_fetch cfg w group_name kw_list tr)
      as (evs1 & rest1 & E1 & Hf1 & Hok1).
    destruct (search_group cfg w group_name kw_list tr) as [[results|e] tr1];
      cbn [snd fst] in *; subst tr1.
    + cbn [ret].
      assert (rest1 = []) by (eapply Hok1; reflexivity). subst rest1.
      rewrite app_nil_r in Hf1.
      match goal with
      | |- context [for_each groups (main_group cfg w) ?s (tr ++ evs1)] =>
          destruct (IH s (tr ++ evs1)) as (evs2 & rest2 & E2 & Hf2 & Hok2)
      end.
      exists (evs1 ++ evs2), rest2. rewrite E2.
      split; [now rewrite app_assoc|]. split; [|exact Hok2].
      now rewrite map_app, fetched_app, <- app_assoc, Hf1, Hf2.
    + exists evs1, (rest1 ++ map (search_url cfg) (flat_map snd groups)).
      split; [reflexivity|]. split.
      * now rewrite map_app, app_assoc, Hf1.
      * intros r H. discriminate.
Qed.

(** The mailer fetches nothing. *)
Lemma send_email_no_fetch cfg w subject body tr :
  exists evs,
    snd (send_email cfg w subject body tr) = tr ++ evs /\ fetched evs = [].
Proof.
  unfold send_email, try_except, bind, smtp, print, emit, raise.
  repeat
    match goal with
    | |- context [w_smtp w ?t ?op] =>
        let E := fresh "E" in destruct (w_smtp w t op) eqn:E
    end;
  (eexists; split;
   [ cbn [snd]; repeat rewrite <- app_assoc; reflexivity | reflexivity ]).
Qed.

(** X8: a run queries the feed at most once per configured keyword, in
    configuration order (group by group, keyword by keyword), the URL being
    the one built from the keyword; when the search loop ends normally
    every keyword has been queried exactly once. *)
Theorem one_query_per_keyword (cfg : Config) (w : World) :
  exists rest,
    fetched (snd (main cfg w [])) ++ rest
    = map (search_url cfg) (all_keywords cfg)
    /\ (forall st tr1,
          search_all cfg w [EvPrint [PStr "🔍 正在抓取 arXiv 论文..."]]
          = (Ok st, tr1) ->
          rest = []).
Proof.
  unfold main, bind, print, emit, now, all_keywords.
  change ([] ++ [EvPrint [PStr "🔍 正在抓取 arXiv 论文..."]])
    with [EvPrint [PStr "🔍 正在抓取 arXiv 论文..."]].
  unfold search_all.
  destruct (search_groups_fetch cfg w (KEYWORD_GROUPS cfg) ([], 0)
              [EvPrint [PStr "🔍 正在抓取 arXiv 论文..."]])
    as (evs & rest & E & Hf & Hok).
  destruct (for_each (KEYWORD_GROUPS cfg) (main_group cfg w) ([], 0)
              [EvPrint [PStr "🔍 正在抓取 arXiv 论文..."]])
    as [[[g n]|e] tr1]; cbn [fst snd] in *; subst tr1.
  - assert (rest = []) by (eapply Hok; reflexivity). subst rest.
    exists []. split; [|reflexivity].
    match goal with
    | |- context [send_email cfg w ?s ?b ?t] =>
        destruct (send_email_no_fetch cfg w s b t) as [sevs [Es Hs]]
    end.
    rewrite Es, !fetched_app, Hs, !app_nil_r. cbn [fetched flat_map app].
    rewrite app_nil_r in Hf. exact Hf.
  - exists rest. split; [|intros st tr1 H; discriminate].
    rewrite fetched_app. exact Hf.
Qed.


Lemma set_keeps_empty (d : GroupedResults) name :
  Forall (fun item => snd item = []) d ->
  Forall (fun item => snd item = []) (PyDict.set d name []).
Proof.
  induction d as [|[k v] d IH]; intros Hall; simpl.
  - now repeat constructor.
  - inversion Hall as [|? ? Hv Hrest]; subst.
    destruct (String.eqb k name); constructor; auto.
Qed.

Lemma dedup_keeps_empty (g : GroupedResults) :
  Forall (fun item => snd item = []) g ->
  Forall (fun item => snd item = []) (deduplicate_grouped_entries g).
Proof.
  unfold deduplicate_grouped_entries. generalize set_empty.
  assert (Hacc : Forall (fun item : string * list Paper => snd item = []) [])
    by constructor.
  revert Hacc. generalize (@nil (string * list Paper)) as deduped.
  induction g as [|[name ps] g IH]; intros deduped Hacc seen Hall;
    [exact Hacc|].
  inversion Hall as [|? ? Hps Hrest]; subst. simpl in Hps. subst ps.
  cbn [fold_left dedup_group]. apply IH; [|exact Hrest].
  now apply set_keeps_empty.
Qed.

Lemma search_keywords_nothing cfg w start_date group_name keywords :
  (forall tr url, w_feed w tr url = []) ->
  forall matched tr,
  fst (for_each keywords (search_keyword cfg w start_date group_name)
                matched tr) = Ok matched.
Proof.
  intros Hfeed. induction keywords as [|kw keywords IH]; intros matched tr;
    [reflexivity|].
  cbn [for_each]. unfold bind at 1.
  unfold search_keyword at 1, bind, print, emit, feedparser_parse.
  cbn beta iota. rewrite Hfeed. cbn [for_each ret]. apply IH.
Qed.

Lemma search_all_nothing cfg w groups :
  (forall tr url, w_feed w tr url = []) ->
  forall acc total tr,
  Forall (fun item => snd item = []) acc ->
  exists g tr1,
    for_each groups (main_group cfg w) (acc, total) tr = (Ok (g, total), tr1)
    /\ Forall (fun item => snd item = []) g.
Proof.
  intros Hfeed.
  induction groups as [|[group_name kw_list] groups IH];
    intros acc total tr Hacc.
  - exists acc, tr. now split.
  - cbn [for_each]. unfold bind at 1. unfold main_group at 1.
    unfold bind at 1.
    pose proof (search_keywords_nothing cfg w
                  (strftime_Ymd (minus_days (w_utcnow w tr) (DAYS_BACK cfg)))
                  group_name kw_list Hfeed [] (tr ++ [EvClockUtc])) as Hnone.
    change (for_each kw_list _ [] (tr ++ [EvClockUtc]))
      with (search_group cfg w group_name kw_list tr) in Hnone.
    destruct (search_group cfg w group_name kw_list tr) as [r tr2].
    cbn [fst] in Hnone. subst r. cbn [ret truthy].
    apply IH. now apply set_keeps_empty.
Qed.

(** The relay accepting every call, the mailer returns normally after its
    seven calls. *)
Lemma send_email_accepted cfg w subject body tr :
  (forall tr0 op, w_smtp w tr0 op = None) ->
  send_email cfg w subject body tr
  = (Ok tt,
     tr ++ [ EvSmtp (SmtpConnect "smtp.gmail.com" 587);
             EvSmtp SmtpEhlo; EvSmtp SmtpStarttls; EvSmtp SmtpEhlo;
             EvSmtp (SmtpLogin (SENDER_EMAIL w) (SENDER_PASSWORD w));
             EvSmtp (SmtpSendmail (SENDER_EMAIL w) (RECEIVER_EMAILS cfg)
                       {| msg_body := body;
                          msg_subject := subject;
                          msg_from := SENDER_EMAIL w;
                          msg_to := String.concat ", " (RECEIVER_EMAILS cfg) |});
             EvSmtp SmtpQuit;
             EvPrint [PStr "Email sent to:"; PStrList (RECEIVER_EMAILS cfg)] ]).
Proof.
  intros Hok.
  unfold send_email, try_except, bind, smtp, print, emit, raise.
  rewrite !Hok. repeat rewrite <- app_assoc. reflexivity.
Qed.

(** X9: when every query comes back without entries, the run hands the
    mailer the fixed no-new-papers body under a subject that counts 0
    groups; and, the relay accepting every call, the run ends normally with
    exit status 0. *)
Theorem quiet_day_is_a_success (cfg : Config) (w : World) :
  (forall tr url, w_feed w tr url = []) ->
  (exists tr1,
     main cfg w []
     = send_email cfg w (subject_line (strftime_Ymd (w_now w tr1)) 0)
                  (no_papers_body cfg) (tr1 ++ [EvClockLocal]))
  /\ ((forall tr op, w_smtp w tr op = None) ->
      fst (main cfg w []) = Ok tt /\ exit_code (fst (main cfg w [])) = 0).
Proof.
  intros Hfeed.
  assert (Hmain : exists tr1,
     main cfg w []
     = send_email cfg w (subject_line (strftime_Ymd (w_now w tr1)) 0)
                  (no_papers_body cfg) (tr1 ++ [EvClockLocal])).
  { destruct (search_all_nothing cfg w (KEYWORD_GROUPS cfg) Hfeed [] 0
                [EvPrint [PStr "🔍 正在抓取 arXiv 论文..."]])
      as (g & tr1 & Hrun & Hempty); [constructor|].
    exists tr1. unfold main, bind, print, emit, now, search_all.
    change ([] ++ [EvPrint [PStr "🔍 正在抓取 arXiv 论文..."]])
      with [EvPrint [PStr "🔍 正在抓取 arXiv 论文..."]].
    rewrite Hrun. unfold format_digest.
    apply dedup_keeps_empty in Hempty. apply all_empty_iff in Hempty.
    now rewrite Hempty. }
  split; [exact Hmain|].
  intros Hrelay. destruct Hmain as [tr1 ->].
  now rewrite send_email_accepted.
Qed.

(** X10: when the search loop raises, the run ends with that exception
    where the search stopped: no call is made on the relay and no message
    is submitted. *)
Theorem search_failure_sends_nothing (cfg : Config) (w : World)
    (e : exn) (tr1 : Trace) :
  search_all cfg w [EvPrint [PStr "🔍 正在抓取 arXiv 论文..."]]
  = (Raise e, tr1) ->
  main cfg w [] = (Raise e, tr1)
  /\ filter is_smtp tr1 = []
  /\ sent_subjects tr1 = [].
Proof.
  intros Hrun.
  destruct (emits_search_all cfg w [EvPrint [PStr "🔍 正在抓取 arXiv 论文..."]])
    as [evs [E Hq]].
  rewrite Hrun in E. cbn [snd] in E. subst tr1.
  split; [|split].
  - unfold main, bind, print, emit.
    change ([] ++ [EvPrint [PStr "🔍 正在抓取 arXiv 论文..."]])
      with [EvPrint [PStr "🔍 正在抓取 arXiv 论文..."]].
    now rewrite Hrun.
  - apply filter_quiet; [auto|].
    constructor; [reflexivity | exact Hq].
  - unfold sent_subjects. cbn [app flat_map]. clear Hrun.
    induction Hq as [|ev evs Hev _ IH]; [reflexivity|].
    cbn [flat_map]. rewrite IH. unfold off_relay in Hev.
    destruct ev as [| | |op|]; try reflexivity. discriminate Hev.
Qed.

(** X11: the mailer submits a message only after connecting, the two
    handshakes, the encryption upgrade and the login with the credentials
    of the environment have all succeeded; the submission names the sender
    of the environment and the configured recipients, and the message has
    the given subject and body, that sender as From and the recipients
    joined by a comma and a blank as To. *)
Theorem sendmail_only_after_login (cfg : Config) (w : World)
    (subject body : string) (tr : Trace) :
  exists evs,
    snd (send_email cfg w subject body tr) = tr ++ evs
    /\ (existsb is_sendmail evs = true ->
        failures_from w tr
          [ EvSmtp (SmtpConnect "smtp.gmail.com" 587);
            EvSmtp SmtpEhlo; EvSmtp SmtpStarttls; EvSmtp SmtpEhlo;
            EvSmtp (SmtpLogin (SENDER_EMAIL w) (SENDER_PASSWORD w)) ] = []
        /\ exists rest,
             evs = [ EvSmtp (SmtpConnect "smtp.gmail.com" 587);
                     EvSmtp SmtpEhlo; EvSmtp SmtpStarttls; EvSmtp SmtpEhlo;
                     EvSmtp (SmtpLogin (SENDER_EMAIL w) (SENDER_PASSWORD w));
                     EvSmtp (SmtpSendmail (SENDER_EMAIL w)
                               (RECEIVER_EMAILS cfg)
                               {| msg_body := body;
                                  msg_subject := subject;
                                  msg_from := SENDER_EMAIL w;
                                  msg_to := String.concat ", "
                                              (RECEIVER_EMAILS cfg) |}) ]
                   ++ rest).
Proof.
  unfold send_email, try_except, bind, smtp, print, emit, raise.
  repeat
    match goal with
    | |- context [w_smtp w ?t ?op] =>
        let E := fresh "E" in destruct (w_smtp w t op) eqn:E
    end;
  (eexists; split;
   [ cbn [snd]; repeat rewrite <- app_assoc; reflexivity
   | cbn [app existsb is_sendmail orb failures_from]; intros Hsent;
     try discriminate;
     repeat match goal with
            | H : w_smtp _ _ _ = _ |- _ => rewrite H; clear H
            end;
     (split; [reflexivity | eexists; reflexivity]) ]).
Qed.

(** X12: the mailer returns normally exactly when no relay call raised,
    and then its log is the seven calls and the confirmation; when it
    raises, the exception is the one of the single failed relay call, and
    after that call the log holds the failure notice and nothing else. *)
Theorem mailer_outcome (cfg : Config) (w : World)
    (subject body : string) (tr : Trace) :
  exists evs,
    snd (send_email cfg w subject body tr) = tr ++ evs
    /\ (fst (send_email cfg w subject body tr) = Ok tt
        <-> failures_from w tr evs = [])
    /\ (fst (send_email cfg w subject body tr) = Ok tt ->
        List.length (filter is_smtp evs) = 7
        /\ last evs EvClockUtc
           = EvPrint [PStr "Email sent to:"; PStrList (RECEIVER_EMAILS cfg)])
    /\ (forall e,
          fst (send_email cfg w subject body tr) = Raise e ->
          failures_from w tr evs = [e]
          /\ exists calls op,
               evs = map EvSmtp calls
                     ++ [EvSmtp op;
                         EvPrint [PStr "Email send failed:"; PStr (exn_msg e)]]
               /\ w_smtp w (tr ++ map EvSmtp calls) op = Some e).
Proof.
  unfold send_email, try_except, bind, smtp, print, emit, raise.
  repeat
    match goal with
    | |- context [w_smtp w ?t ?op] =>
        let E := fresh "E" in destruct (w_smtp w t op) eqn:E
    end;
  (eexists; split;
   [ cbn [snd]; repeat rewrite <- app_assoc; reflexivity |]);
  cbn [fst app failures_from];
  repeat match goal with
         | H : w_smtp _ _ _ = None |- _ => rewrite H
         | H : w_smtp _ _ _ = Some _ |- _ => rewrite H
         end;
  cbn [app];
  (split; [split; intros; (reflexivity || discriminate)|]);
  (split; [intros; try discriminate; split; reflexivity|]);
  intros e' He'; try discriminate; inversion He'; subst;
  (split; [reflexivity|]).
  - exists [], (SmtpConnect "smtp.gmail.com" 587).
    split; [reflexivity|]. cbn [map]. now rewrite app_nil_r.
  - exists [SmtpConnect "smtp.gmail.com" 587], SmtpEhlo.
    split; [reflexivity | assumption].
  - exists [SmtpConnect "smtp.gmail.com" 587; SmtpEhlo], SmtpStarttls.
    split; [reflexivity|]. cbn [map]. now repeat rewrite <- app_assoc in *.
  - exists [SmtpConnect "smtp.gmail.com" 587; SmtpEhlo; SmtpStarttls], SmtpEhlo.
    split; [reflexivity|]. cbn [map]. now repeat rewrite <- app_assoc in *.
  - eexists [SmtpConnect "smtp.gmail.com" 587; SmtpEhlo; SmtpStarttls;
             SmtpEhlo], _.
    split; [reflexivity|]. cbn [map]. now repeat rewrite <- app_assoc in *.
  - eexists [SmtpConnect "smtp.gmail.com" 587; SmtpEhlo; SmtpStarttls;
             SmtpEhlo; SmtpLogin _ _], _.
    split; [reflexivity|]. cbn [map]. now repeat rewrite <- app_assoc in *.
  - eexists [SmtpConnect "smtp.gmail.com" 587; SmtpEhlo; SmtpStarttls;
             SmtpEhlo; SmtpLogin _ _; SmtpSendmail _ _ _], _.
    split; [reflexivity|]. cbn [map]. now repeat rewrite <- app_assoc in *.
Qed.


(** ** Further properties of the query URL *)

Lemma all_chars_append P a b :
  all_chars P (a +++ b) = all_chars P a && all_chars P b.
Proof.
  induction a as [|c a IH]; simpl; [reflexivity|].
  now rewrite IH, andb_assoc.
Qed.

Lemma all_chars_concat P sep l :
  all_chars P sep = true ->
  Forall (fun s => all_chars P s = true) l ->
  all_chars P (String.concat sep l) = true.
Proof.
  intros Hsep Hl. induction Hl as [|s l Hs Hl IH]; [reflexivity|].
  destruct l as [|s' l]; [exact Hs|].
  cbn [String.concat]. rewrite !all_chars_append, Hs, Hsep. exact IH.
Qed.

Lemma url_char_code n :
  33 <= n <= 126 -> url_char (ascii_of_nat n) = true.
Proof.
  intros Hn. unfold url_char, in_range.
  rewrite nat_ascii_embedding by lia.
  apply andb_true_intro. split; apply Nat.leb_le; lia.
Qed.

Lemma url_char_hex_digit k : k < 16 -> url_char (hex_digit k) = true.
Proof.
  intros Hk. unfold hex_digit.
  destruct (Nat.ltb_spec k 10); apply url_char_code; lia.
Qed.

Lemma quote_safe_url_char c : quote_safe c = true -> url_char c = true.
Proof.
  unfold quote_safe, url_char, in_range.
  rewrite !orb_true_iff, !andb_true_iff, !Nat.leb_le, !Nat.eqb_eq. lia.
Qed.

Lemma nat_of_ascii_bound c : nat_of_ascii c < 256.
Proof.
  unfold nat_of_ascii. pose proof (N_ascii_bounded c) as H. lia.
Qed.

(** Percent-encoding leaves printable characters only. *)
Lemma quote_url_chars s : all_chars url_char (quote s) = true.
Proof.
  induction s as [|c s IH]; [reflexivity|]. cbn [quote].
  destruct (quote_safe c) eqn:E; cbn [all_chars].
  - now rewrite (quote_safe_url_char c E), IH.
  - pose proof (nat_of_ascii_bound c) as Hb.
    rewrite !url_char_hex_digit, IH; [reflexivity | |].
    + apply Nat.mod_upper_bound. lia.
    + apply Nat.Div0.div_lt_upper_bound. lia.
Qed.

Lemma uint_url_chars u :
  all_chars url_char (NilEmpty.string_of_uint u) = true.
Proof.
  induction u; cbn [NilEmpty.string_of_uint all_chars]; try rewrite IHu;
    reflexivity.
Qed.

Lemma str_of_nat_url_chars n : all_chars url_char (str_of_nat n) = true.
Proof.
  unfold str_of_nat, NilZero.string_of_uint.
  destruct (Nat.to_uint n) eqn:E; try reflexivity;
    rewrite <- E; apply uint_url_chars.
Qed.

(** X13: whatever the keyword and the categories hold (blanks, line
    breaks, bytes of non-ASCII text), the query URL is made of printable
    ASCII characters other than the blank, provided the base URL is. *)
Theorem search_url_is_printable (cfg : Config) (kw : string) :
  all_chars url_char (BASE_URL cfg) = true ->
  all_chars url_char (search_url cfg kw) = true.
Proof.
  intros Hbase. unfold search_url.
  rewrite !all_chars_append, Hbase, !quote_url_chars, str_of_nat_url_chars.
  rewrite all_chars_concat; [reflexivity | reflexivity |].
  apply Forall_forall. intros s Hs. apply in_map_iff in Hs.
  destruct Hs as [cat [<- _]].
  rewrite all_chars_append. now rewrite quote_url_chars.
Qed.

Lemma sent_subjects_off_relay evs :
  Forall off_relay evs -> sent_subjects evs = [].
Proof.
  unfold sent_subjects. intros Hq.
  induction Hq as [|ev evs Hev _ IH]; [reflexivity|].
  cbn [flat_map]. rewrite IH. unfold off_relay in Hev.
  destruct ev as [| | |op|]; try reflexivity. discriminate Hev.
Qed.

Lemma sent_subjects_app a b :
  sent_subjects (a ++ b) = sent_subjects a ++ sent_subjects b.
Proof. unfold sent_subjects. apply flat_map_app. Qed.

(** X14: when the search loop ends normally and the relay accepts every
    call, the run ends normally with exit status 0, having submitted one
    message, whose subject carries the run date and the counter of the
    search loop. *)
Theorem run_succeeds_when_relay_accepts (cfg : Config) (w : World)
    (g : GroupedResults) (n : nat) (tr1 : Trace) :
  search_all cfg w [EvPrint [PStr "🔍 正在抓取 arXiv 论文..."]]
  = (Ok (g, n), tr1) ->
  (forall tr op, w_smtp w tr op = None) ->
  fst (main cfg w []) = Ok tt
  /\ exit_code (fst (main cfg w [])) = 0
  /\ sent_subjects (snd (main cfg w []))
     = [subject_line (strftime_Ymd (w_now w tr1)) n].
Proof.
  intros Hrun Hrelay.
  destruct (emits_search_all cfg w [EvPrint [PStr "🔍 正在抓取 arXiv 论文..."]])
    as [evs [E Hq]].
  rewrite Hrun in E. cbn [snd] in E.
  assert (Hmain : main cfg w []
    = send_email cfg w (subject_line (strftime_Ymd (w_now w tr1)) n)
        (format_digest cfg (deduplicate_grouped_entries g))
        (tr1 ++ [EvClockLocal])).
  { unfold main, bind, print, emit, now.
    change ([] ++ [EvPrint [PStr "🔍 正在抓取 arXiv 论文..."]])
      with [EvPrint [PStr "🔍 正在抓取 arXiv 论文..."]].
    now rewrite Hrun. }
  rewrite Hmain, send_email_accepted by assumption.
  split; [reflexivity|]. split; [reflexivity|].
  cbn [snd]. rewrite !sent_subjects_app. subst tr1.
  rewrite sent_subjects_app, (sent_subjects_off_relay evs Hq).
  reflexivity.
Qed.


End Program.

(** ** Runs of the model on sample data *)


(** C8 on [sample_groups]. *)
Lemma dedup_idempotent_witness :
  PyDict.wf sample_groups
  /\ deduplicate_grouped_entries ascii_lower ascii_strip
       (deduplicate_grouped_entries ascii_lower ascii_strip sample_groups)
     = deduplicate_grouped_entries ascii_lower ascii_strip sample_groups.
Proof.
  assert (Hwf : PyDict.wf sample_groups) by distinct_keys.
  split; [exact Hwf|].
  exact (dedup_idempotent ascii_lower ascii_strip sample_groups Hwf).
Defined.

(** C7 on two empty groups, with the script's lookback window. *)
Lemma format_digest_all_empty_witness :
  Forall (fun item : string * list Paper => snd item = []) empty_groups
  /\ format_digest default_config empty_groups
     = "🛑 最近 5 天内 arXiv 上没有找到匹配关键词的新论文。".
Proof.
  assert (Hall : Forall (fun item : string * list Paper => snd item = [])
                        empty_groups)
    by (repeat constructor).
  split; [exact Hall|].
  rewrite (format_digest_all_empty default_config empty_groups Hall).
  reflexivity.
Defined.


(** C5 on an entry of 2023-12-30 against the cutoff 2024-01-01: its title
    holds the keyword and its category is allowed, and it is left out. *)
Lemma old_entry_excluded_witness :
  date_ok (mkDate 2024 1 1)
  /\ date_ok (mkDate 2023 12 30)
  /\ published_on entry_old (mkDate 2023 12 30)
  /\ date_lt (mkDate 2023 12 30) (mkDate 2024 1 1)
  /\ search_entry ascii_lower ascii_strip tiny_config "2024-01-01" "B" "bar"
                  [] entry_old []
     = (Ok [], []).
Proof.
  assert (Hc : date_ok (minus_days (w_utcnow tiny_world [])
                                   (DAYS_BACK tiny_config)))
    by (unfold date_ok; by_computation).
  assert (Hd : date_ok (mkDate 2023 12 30))
    by (unfold date_ok; by_computation).
  assert (Hpub : published_on entry_old (mkDate 2023 12 30)).
  { exists "T08:00:00Z". reflexivity. }
  assert (Hlt : date_lt (mkDate 2023 12 30)
                        (minus_days (w_utcnow tiny_world [])
                                    (DAYS_BACK tiny_config))).
  { left. apply Nat.leb_le. reflexivity. }
  split; [exact Hc|]. split; [exact Hd|]. split; [exact Hpub|].
  split; [exact Hlt|].
  destruct (old_entry_excluded ascii_lower ascii_strip tiny_config tiny_world
              [] entry_old (mkDate 2023 12 30) Hc Hd Hpub Hlt)
    as (start_date & Hstart & Hskip & _).
  injection Hstart as <-.
  exact (Hskip "B" "bar" [] []).
Defined.

(** C9 on an entry without tags, strict-category mode off. *)
Lemma lenient_mode_ignores_tags_witness :
  STRICT_CATEGORY_MODE lenient_config = false
  /\ is_category_allowed lenient_config entry_no_tags [] = (Ok true, []).
Proof.
  split; [reflexivity|].
  exact (proj1 (lenient_mode_ignores_tags ascii_lower ascii_strip
                  lenient_config eq_refl) entry_no_tags []).
Defined.

(** C6, amended, on a recent entry without tags whose title holds the
    keyword. *)
Lemma missing_tags_excluded_witness :
  STRICT_CATEGORY_MODE tiny_config = true
  /\ e_tags entry_no_tags = None
  /\ search_entry ascii_lower ascii_strip tiny_config "2024-01-01" "B" "bar"
                  [] entry_no_tags []
     = (Ok [], []).
Proof.
  split; [reflexivity|]. split; [reflexivity|].
  destruct (missing_tags_excluded ascii_lower ascii_strip tiny_config
              entry_no_tags eq_refl (or_introl eq_refl)) as (_ & Hskip & _).
  exact (Hskip "2024-01-02T09:30:00Z" "2024-01-01" "B" "bar" [] [] eq_refl).
Defined.

(** C6 as stated fails: an entry without a published timestamp is an entry
    with a missing expected field; the search raises on it and the run ends
    with that exception instead of leaving the entry out. *)
Lemma missing_published_crashes_run :
  e_published entry_no_published = None
  /\ search_entry ascii_lower ascii_strip default_config "2024-01-01"
                  "Integrated Photonic Materials" "SiN" [] entry_no_published []
     = (Raise (AttributeError "published"), [])
  /\ fst (main ascii_lower ascii_strip default_config broken_feed_world [])
     = Raise (AttributeError "published")
  /\ exit_code
       (fst (main ascii_lower ascii_strip default_config broken_feed_world []))
     = 1.
Proof. by_computation. Qed.

(** C2, amended, on two groups that find the same paper: the subject says 2
    groups. *)
Lemma subject_counts_groups_found_witness :
  PyDict.wf (KEYWORD_GROUPS tiny_config)
  /\ search_all ascii_lower ascii_strip tiny_config tiny_world
       ([] ++ [EvPrint [PStr "🔍 正在抓取 arXiv 论文..."]])
     = (Ok (tiny_found, 2), tiny_log)
  /\ main ascii_lower ascii_strip tiny_config tiny_world []
     = send_email tiny_config tiny_world
         (subject_line "2024-01-06" 2)
         (format_digest tiny_config
            (deduplicate_grouped_entries ascii_lower ascii_strip tiny_found))
         (tiny_log ++ [EvClockLocal]).
Proof.
  assert (Hwf : PyDict.wf (KEYWORD_GROUPS tiny_config)) by distinct_keys.
  assert (Hrun : search_all ascii_lower ascii_strip tiny_config tiny_world
                   ([] ++ [EvPrint [PStr "🔍 正在抓取 arXiv 论文..."]])
                 = (Ok (tiny_found, 2), tiny_log))
    by (vm_compute; reflexivity).
  split; [exact Hwf|]. split; [exact Hrun|].
  exact (proj2 (proj2 (subject_counts_groups_found ascii_lower ascii_strip
                         tiny_config tiny_world [] tiny_log tiny_found 2
                         Hwf Hrun))).
Defined.

(** C2 as stated fails: with the script's configuration and a paper found
    under two groups, the subject submitted says 2 groups, and one group is
    non-empty after deduplication. *)
Lemma subject_not_counted_after_dedup :
  sent_subjects
    (snd (main ascii_lower ascii_strip default_config dup_world []))
  = [subject_line "2024-01-06" 2]
  /\ groups_after_dedup ascii_lower ascii_strip
       (search_outcome ascii_lower ascii_strip default_config dup_world)
     = Some 1
  /\ subject_line "2024-01-06" 2 <> subject_line "2024-01-06" 1.
Proof.
  split; [vm_compute; reflexivity|]. split; [vm_compute; reflexivity|].
  vm_compute. discriminate.
Qed.

(** C3 as stated fails: with both secrets unset the run makes 47 network
    calls, the 42 feed queries among them, logs in with the absent
    credentials, and fails only when the relay refuses the login. *)
Lemma no_secret_run_uses_network :
  SENDER_EMAIL no_secret_world = None
  /\ SENDER_PASSWORD no_secret_world = None
  /\ List.length
       (filter is_network
          (snd (main ascii_lower ascii_strip default_config
                     no_secret_world [])))
     = 47
  /\ In (EvFetch (search_url default_config "SiN"))
        (snd (main ascii_lower ascii_strip default_config no_secret_world []))
  /\ In (EvSmtp (SmtpLogin None None))
        (snd (main ascii_lower ascii_strip default_config no_secret_world []))
  /\ fst (main ascii_lower ascii_strip default_config no_secret_world [])
     = Raise (Exn "SMTPAuthenticationError"
                  "Username and Password not accepted").
Proof.
  split; [reflexivity|]. split; [reflexivity|].
  split; [vm_compute; reflexivity|].
  split; [vm_compute; tauto|].
  split; [vm_compute; tauto|].
  vm_compute; reflexivity.
Qed.

(** C3, amended, with both secrets unset and a relay that refuses the
    login: the search loop ends normally, the login is made with the two
    absent values, and the run fails by the relay call that raised. *)
Lemma secrets_not_checked_at_startup_witness :
  search_all ascii_lower ascii_strip tiny_config
             (set_getenv no_secret_world secrets_unset)
             [EvPrint [PStr "🔍 正在抓取 arXiv 论文..."]]
  = (Ok (empty_groups, 0), tiny_log)
  /\ In (EvSmtp (SmtpLogin None None))
        (snd (main ascii_lower ascii_strip tiny_config
                   (set_getenv no_secret_world secrets_unset) []))
  /\ smtp_failed (set_getenv no_secret_world secrets_unset)
       (snd (main ascii_lower ascii_strip tiny_config
                  (set_getenv no_secret_world secrets_unset) []))
       (Exn "SMTPAuthenticationError" "Username and Password not accepted").
Proof.
  assert (Hrun :
    search_all ascii_lower ascii_strip tiny_config
               (set_getenv no_secret_world secrets_unset)
               [EvPrint [PStr "🔍 正在抓取 arXiv 论文..."]]
    = (Ok (empty_groups, 0), tiny_log))
    by (vm_compute; reflexivity).
  split; [exact Hrun|].
  destruct (secrets_not_checked_at_startup ascii_lower ascii_strip
              no_secret_world secrets_unset) as (_ & _ & _ & Hmail).
  destruct (Hmail tiny_config (empty_groups, 0) tiny_log Hrun)
    as (_ & Hlogin & Hfails & _).
  split.
  - exact (Hlogin eq_refl).
  - apply Hfails. vm_compute. reflexivity.
Defined.


(** ** Runs for the further properties *)

(** X1 on [distinct_groups]. *)
Lemma dedup_keeps_distinct_witness :
  PyDict.wf distinct_groups
  /\ NoDup (map (title_key ascii_lower ascii_strip) (flatten distinct_groups))
  /\ deduplicate_grouped_entries ascii_lower ascii_strip distinct_groups
     = distinct_groups.
Proof.
  assert (Hwf : PyDict.wf distinct_groups) by distinct_keys.
  assert (Hnd : NoDup (map (title_key ascii_lower ascii_strip)
                           (flatten distinct_groups)))
    by (vm_compute; repeat constructor; simpl; intuition discriminate).
  split; [exact Hwf|]. split; [exact Hnd|].
  exact (dedup_keeps_distinct ascii_lower ascii_strip distinct_groups Hwf Hnd).
Defined.

(** X2 on [sample_groups]: six papers in, three out. *)
Lemma dedup_same_titles_witness :
  PyDict.wf sample_groups
  /\ (In "foo study"
         (map (title_key ascii_lower ascii_strip)
              (flatten (deduplicate_grouped_entries ascii_lower ascii_strip
                                                    sample_groups)))
      <-> In "foo study"
             (map (title_key ascii_lower ascii_strip) (flatten sample_groups)))
  /\ List.length (flatten (deduplicate_grouped_entries ascii_lower ascii_strip
                                                       sample_groups)) <= 6.
Proof.
  assert (Hwf : PyDict.wf sample_groups) by distinct_keys.
  split; [exact Hwf|].
  destruct (dedup_same_titles ascii_lower ascii_strip sample_groups Hwf)
    as (Hsame & Hlen & _).
  split; [exact (Hsame "foo study") | exact Hlen].
Defined.


(** X4 on the search of group [A] in [tiny_world]. *)
Lemma search_group_results_match_witness :
  search_group ascii_lower ascii_strip tiny_config tiny_world "A" ["foo"] []
  = (Ok [ {| title := "Foo bar study"; authors := "A. Author, B. Author";
             summary := "We demonstrate a device.";
             link := "http://arxiv.org/abs/2401.00001v1";
             keyword := "foo"; group := "A" |} ],
     [ EvClockUtc; EvPrint [PStr "🔍 [A] Searching: foo"];
       EvFetch (search_url tiny_config "foo") ])
  /\ Forall (found_under ascii_lower "A" ["foo"])
            [ {| title := "Foo bar study"; authors := "A. Author, B. Author";
                 summary := "We demonstrate a device.";
                 link := "http://arxiv.org/abs/2401.00001v1";
                 keyword := "foo"; group := "A" |} ].
Proof.
  assert (Hrun :
    search_group ascii_lower ascii_strip tiny_config tiny_world "A" ["foo"] []
    = (Ok [ {| title := "Foo bar study"; authors := "A. Author, B. Author";
               summary := "We demonstrate a device.";
               link := "http://arxiv.org/abs/2401.00001v1";
               keyword := "foo"; group := "A" |} ],
       [ EvClockUtc; EvPrint [PStr "🔍 [A] Searching: foo"];
         EvFetch (search_url tiny_config "foo") ]))
    by (vm_compute; reflexivity).
  split; [exact Hrun|].
  exact (search_group_results_match ascii_lower ascii_strip tiny_config
           tiny_world "A" ["foo"] [] _ _ Hrun).
Defined.

(** X5 on an entry tagged [physics.optics]. *)
Lemma strict_mode_needs_allowed_tag_witness :
  STRICT_CATEGORY_MODE tiny_config = true
  /\ e_tags entry_foo_bar = Some [TagDict (Some (Some "physics.optics"))]
  /\ exists b,
       is_category_allowed tiny_config entry_foo_bar [] = (Ok b, [])
       /\ (b = true
           <-> exists cat,
                 In cat (CATEGORIES tiny_config)
                 /\ Exists (tag_names cat)
                           [TagDict (Some (Some "physics.optics"))]).
Proof.
  split; [reflexivity|]. split; [reflexivity|].
  exact (strict_mode_needs_allowed_tag tiny_config entry_foo_bar
           [TagDict (Some (Some "physics.optics"))] [] eq_refl eq_refl).
Defined.

(** X7 on an entry of 2024-01-02 against the cutoff 2024-01-01. *)
Lemma recent_entry_included_witness :
  date_ok (mkDate 2024 1 1)
  /\ date_ok (mkDate 2024 1 2)
  /\ ~ date_lt (mkDate 2024 1 2) (mkDate 2024 1 1)
  /\ search_entry ascii_lower ascii_strip tiny_config "2024-01-01" "A" "foo"
                  [] entry_foo_bar []
     = (Ok [ {| title := "Foo bar study"; authors := "A. Author, B. Author";
                summary := "We demonstrate a device.";
                link := "http://arxiv.org/abs/2401.00001v1";
                keyword := "foo"; group := "A" |} ],
        []).
Proof.
  assert (Hc : date_ok (mkDate 2024 1 1)) by (unfold date_ok; by_computation).
  assert (Hd : date_ok (mkDate 2024 1 2)) by (unfold date_ok; by_computation).
  assert (Hnlt : ~ date_lt (mkDate 2024 1 2) (mkDate 2024 1 1)).
  { unfold date_lt. simpl. intros [H|[[_ H]|[_ [_ H]]]].
    - apply Nat.lt_irrefl in H. exact H.
    - apply Nat.lt_irrefl in H. exact H.
    - apply Nat.leb_le in H. discriminate H. }
  split; [exact Hc|]. split; [exact Hd|]. split; [exact Hnlt|].
  exact (recent_entry_included ascii_lower ascii_strip tiny_config
           (mkDate 2024 1 1) (mkDate 2024 1 2) entry_foo_bar
           "T09:30:00Z" "Foo bar study" "We demonstrate a device."
           "http://arxiv.org/abs/2401.00001v1" "A" "foo"
           ["A. Author"; "B. Author"] [] []
           Hc Hd Hnlt eq_refl eq_refl eq_refl eq_refl eq_refl eq_refl eq_refl).
Defined.

(** X9 in [quiet_world]: the run of the script's configuration ends with
    exit status 0. *)
Lemma quiet_day_is_a_success_witness :
  (forall tr url, w_feed quiet_world tr url = [])
  /\ (forall tr op, w_smtp quiet_world tr op = None)
  /\ fst (main ascii_lower ascii_strip default_config quiet_world []) = Ok tt
  /\ exit_code (fst (main ascii_lower ascii_strip default_config
                          quiet_world [])) = 0.
Proof.
  assert (Hfeed : forall tr url, w_feed quiet_world tr url = [])
    by reflexivity.
  assert (Hrelay : forall tr op, w_smtp quiet_world tr op = None)
    by reflexivity.
  split; [exact Hfeed|]. split; [exact Hrelay|].
  exact (proj2 (quiet_day_is_a_success ascii_lower ascii_strip default_config
                  quiet_world Hfeed) Hrelay).
Defined.

(** X10 in [broken_feed_world]: the run stops at the first query. *)
Lemma search_failure_sends_nothing_witness :
  search_all ascii_lower ascii_strip default_config broken_feed_world
             [EvPrint [PStr "🔍 正在抓取 arXiv 论文..."]]
  = (Raise (AttributeError "published"),
     [ EvPrint [PStr "🔍 正在抓取 arXiv 论文..."]; EvClockUtc;
       EvPrint [PStr "🔍 [Integrated Photonic Materials] Searching: SiN"];
       EvFetch (search_url default_config "SiN") ])
  /\ main ascii_lower ascii_strip default_config broken_feed_world []
     = (Raise (AttributeError "published"),
        [ EvPrint [PStr "🔍 正在抓取 arXiv 论文..."]; EvClockUtc;
          EvPrint [PStr "🔍 [Integrated Photonic Materials] Searching: SiN"];
          EvFetch (search_url default_config "SiN") ]).
Proof.
  assert (Hrun :
    search_all ascii_lower ascii_strip default_config broken_feed_world
               [EvPrint [PStr "🔍 正在抓取 arXiv 论文..."]]
    = (Raise (AttributeError "published"),
       [ EvPrint [PStr "🔍 正在抓取 arXiv 论文..."]; EvClockUtc;
         EvPrint [PStr "🔍 [Integrated Photonic Materials] Searching: SiN"];
         EvFetch (search_url default_config "SiN") ]))
    by (vm_compute; reflexivity).
  split; [exact Hrun|].
  exact (proj1 (search_failure_sends_nothing ascii_lower ascii_strip
                  default_config broken_feed_world _ _ Hrun)).
Defined.

(** X13 on a keyword with blanks, under the script's configuration. *)
Lemma search_url_is_printable_witness :
  all_chars url_char (BASE_URL default_config) = true
  /\ all_chars url_char (search_url default_config "thin-film lithium niobate")
     = true.
Proof.
  split; [reflexivity|].
  exact (search_url_is_printable default_config "thin-film lithium niobate"
           eq_refl).
Defined.

(** X14 in [tiny_world]. *)
Lemma run_succeeds_when_relay_accepts_witness :
  search_all ascii_lower ascii_strip tiny_config tiny_world
             [EvPrint [PStr "🔍 正在抓取 arXiv 论文..."]]
  = (Ok (tiny_found, 2), tiny_log)
  /\ (forall tr op, w_smtp tiny_world tr op = None)
  /\ exit_code (fst (main ascii_lower ascii_strip tiny_config tiny_world []))
     = 0
  /\ sent_subjects (snd (main ascii_lower ascii_strip tiny_config
                              tiny_world []))
     = [subject_line "2024-01-06" 2].
Proof.
  assert (Hrun : search_all ascii_lower ascii_strip tiny_config tiny_world
                   [EvPrint [PStr "🔍 正在抓取 arXiv 论文..."]]
                 = (Ok (tiny_found, 2), tiny_log))
    by (vm_compute; reflexivity).
  assert (Hrelay : forall tr op, w_smtp tiny_world tr op = None)
    by reflexivity.
  split; [exact Hrun|]. split; [exact Hrelay|].
  destruct (run_succeeds_when_relay_accepts ascii_lower ascii_strip
              tiny_config tiny_world tiny_found 2 tiny_log Hrun Hrelay)
    as (_ & Hexit & Hsent).
  split; [exact Hexit | exact Hsent].
Defined.
